(** * pkg/handler/handler.go: event translation, partitioned dispatch and
      the per-lane worker of the pod EIP controller.

    The development embeds [Handler.HandleEvent], [Handler.insert2Queue],
    [Handler.process], [Handler.init], [NewHandler] and [getInfo] as executable
    functions.  Go's runtime
    outcomes that the functions can reach (a nil dereference, an index out of
    range, an integer division by zero, a send on a full channel) are explicit
    results of a small state monad. *)

From stdpp Require Import gmap strings list fin_maps.
From Stdlib Require Import ZArith Lia Ascii.

Local Open Scope string_scope.
Local Open Scope list_scope.
Local Open Scope Z_scope.

(** ** Data model *)

(** Go's [error] values are observed through their message. *)
Definition error : Type := string.

(** Modelled from the spec: the declaration of the struct [event] (file
    event.go) is absent; the four fields are the ones handler.go reads and
    writes (lines 44-58 and 97-125) and that the data model of the spec lists
    (identity, version, wantsAddress, wantsShieldAdvanced). *)
Record event : Type := mkEvent {
  PodIP : string;
  ResourceVersion : string;
  AttachIP : bool;
  ShiedAdv : bool
}.

#[global] Instance event_eq_dec : EqDecision event.
Proof. solve_decision. Defined.

(** The zero value of [event], what a Go map index yields for a missing key. *)
Definition zero_event : event := mkEvent "" "" false false.

(** A decoded JSON document, the content of [unstructured.Unstructured.Object]
    ([map[string]interface{}]). *)
#[warnings="-register-all"]
Inductive value : Type :=
| VNil
| VString (s : string)
| VBool (b : bool)
| VNumber (z : Z)
| VList (l : list value)
| VMap (m : gmap string value).

Record Unstructured : Type := mkUnstructured { Object : gmap string value }.

(** *** Accessors of k8s.io/apimachinery (package unstructured) *)

(** [NestedFieldNoCopy]: walks [fields] from the root; a missing key or a nil
    on the way is "not found", a non-map on the way is an error. *)
Fixpoint NestedFieldNoCopy_from (val : value) (fields : list string)
  : value * bool * option error :=
  match fields with
  | [] => (val, true, None)
  | field :: rest =>
      match val with
      | VNil => (VNil, false, None)
      | VMap m =>
          match m !! field with
          | Some v => NestedFieldNoCopy_from v rest
          | None => (VNil, false, None)
          end
      | _ => (VNil, false, Some "accessor error: expected map[string]interface{}")
      end
  end.

Definition NestedFieldNoCopy (obj : gmap string value) (fields : list string)
  : value * bool * option error :=
  NestedFieldNoCopy_from (VMap obj) fields.

(** [NestedString]: the field as a string, whether it was found, and an error
    when the path or the value has the wrong type. *)
Definition NestedString (obj : gmap string value) (fields : list string)
  : string * bool * option error :=
  match NestedFieldNoCopy obj fields with
  | (val, true, None) =>
      match val with
      | VString s => (s, true, None)
      | _ => ("", false, Some "accessor error: expected string")
      end
  | (_, found, err) => ("", found, err)
  end.

(** [getNestedString]: the empty string unless the field is a string. *)
Definition getNestedString (obj : gmap string value) (fields : list string) : string :=
  match NestedString obj fields with
  | (val, true, None) => val
  | _ => ""
  end.

Definition as_string (v : value) : option string :=
  match v with VString s => Some s | _ => None end.

(** [NestedStringMap] as [GetAnnotations] uses it: the map when every value
    is a string, the nil map (no key present) otherwise. *)
Definition NestedStringMap (obj : gmap string value) (fields : list string)
  : gmap string string :=
  match NestedFieldNoCopy obj fields with
  | (VMap m, true, None) =>
      if bool_decide (map_Forall (λ _ v, is_Some (as_string v)) m)
      then omap as_string m
      else ∅
  | _ => ∅
  end.

Definition GetName (u : Unstructured) : string :=
  getNestedString (Object u) ["metadata"; "name"].
Definition GetUID (u : Unstructured) : string :=
  getNestedString (Object u) ["metadata"; "uid"].
Definition GetResourceVersion (u : Unstructured) : string :=
  getNestedString (Object u) ["metadata"; "resourceVersion"].
Definition GetAnnotations (u : Unstructured) : gmap string string :=
  NestedStringMap (Object u) ["metadata"; "annotations"].

(** *** Log records (logrus entries) *)

Inductive Level : Type := InfoLevel | ErrorLevel.

Inductive FieldValue : Type :=
| FEvent (e : event)
| FInt (z : Z)
| FString (s : string)
| FStringMap (m : gmap string string)
| FObject (o : Unstructured).

Record Entry : Type := mkEntry {
  level : Level;
  message : string;
  fields : list (string * FieldValue)
}.

(** *** Collaborators declared outside handler.go *)

(** [Process] is the method [event.Process(oldEvent, ec2, shield)] seen from
    its call sites: it acts on the external services, whose state is [World],
    and reports an error or nil; its receiver is the event itself, which
    [process] stores afterwards as it received it.  [PodIP2Int] is
    [event.PodIP2Int], whose result handler.go converts with [int32(...)]. *)
Class Collaborators : Type := {
  World : Type;
  Process : event → option event → World → World * option error;
  PodIP2Int : event → Z
}.

(** *** The handler and the state its methods act on *)

Record Handler : Type := mkHandler {
  ChannelSize : Z;
  ProcessChannel : list (list event);
  EipStatusMap : list (gmap string event)
}.

(** Capacity of every lane queue: [make(chan event, 100)]. *)
Definition channel_capacity : nat := 100.

(** [int32(x)]: conversion to a signed 32-bit integer, wrapping around. *)
Definition int32 (z : Z) : Z := (z + 2 ^ 31) mod 2 ^ 32 - 2 ^ 31.

Section Machine.
Context `{C : Collaborators}.

(** A call of the reconciliation boundary: the previous event handed over
    (nil on the creation path) and the receiver. *)
Definition Call : Type := option event * event.

(** What the methods of the handler act on: the handler, the external
    services, the calls made to them so far and the entries logged so far. *)
Record State : Type := mkState {
  hd : Handler;
  world : World;
  calls : list Call;
  logs : list Entry
}.

(** How a run ends: it returns, it panics, or it is suspended on the send of
    [e] to the full queue of [lane]. *)
Inductive Res (A : Type) : Type :=
| Ok (a : A) (s : State)
| Panic (reason : string) (s : State)
| Block (lane : nat) (e : event) (s : State).
#[global] Arguments Ok {A} a s.
#[global] Arguments Panic {A} reason s.
#[global] Arguments Block {A} lane e s.

Definition M (A : Type) : Type := State → Res A.

#[global] Instance M_ret : MRet M := λ A a s, Ok a s.
#[global] Instance M_bind : MBind M := λ A B f m s,
  match m s with
  | Ok a s' => f a s'
  | Panic r s' => Panic r s'
  | Block lane e s' => Block lane e s'
  end.

Definition panic {A} (reason : string) : M A := λ s, Panic reason s.

Definition with_hd (f : Handler → Handler) (s : State) : State :=
  mkState (f (hd s)) (world s) (calls s) (logs s).
Definition with_logs (f : list Entry → list Entry) (s : State) : State :=
  mkState (hd s) (world s) (calls s) (f (logs s)).

Definition get_hd : M Handler := λ s, Ok (hd s) s.
Definition modify_hd (f : Handler → Handler) : M unit := λ s, Ok tt (with_hd f s).

(** An entry written through the process-wide logger. *)
Definition log (lv : Level) (msg : string) (fs : list (string * FieldValue)) : M unit :=
  λ s, Ok tt (with_logs (λ l, l ++ [mkEntry lv msg fs]) s).

(** Dereference of a Go pointer. *)
Definition deref {A} (p : option A) : M A :=
  match p with
  | Some a => mret a
  | None => panic "invalid memory address or nil pointer dereference"
  end.

(** [e.Process(old, h.EC2Service, h.ShiedService)]; the call is recorded in
    [calls]. *)
Definition call_Process (e : event) (old : option event) : M (option error) :=
  λ s, let '(w, err) := Process e old (world s) in
       Ok err (mkState (hd s) w (calls s ++ [(old, e)]) (logs s)).

(** Go's map index [m[k]]: the zero value and false for a missing key. *)
Definition map_index (m : gmap string event) (k : string) : event * bool :=
  match m !! k with
  | Some v => (v, true)
  | None => (zero_event, false)
  end.

Definition set_status (i : nat) (k : string) (e : event) (h : Handler) : Handler :=
  mkHandler (ChannelSize h) (ProcessChannel h)
            (alter (λ m, <[k := e]> m) i (EipStatusMap h)).

(** ** [Handler.process]: the body of the loop, for one received event *)
Definition process_event (i : nat) (e : event) : M unit :=
  log InfoLevel "process event" [("event", FEvent e)];;
  h ← get_hd;
  match EipStatusMap h !! i with
  | None => panic "index out of range"
  | Some m =>
      let '(val, ok) := map_index m (PodIP e) in
      if ok && bool_decide (ResourceVersion val = ResourceVersion e) then
        log InfoLevel "same resource version" []
      else
        if negb ok then
          err ← call_Process e None;
          match err with
          | Some er => log ErrorLevel er []
          | None => modify_hd (set_status i (PodIP e) e)
          end
        else
          call_Process e (Some val);;
          modify_hd (set_status i (PodIP e) e)
  end.

(** [for e = range h.ProcessChannel[i]]: the worker receives the queued events
    in order, one turn of the loop each, and suspends on the empty queue. *)
Definition pop_channel (i : nat) (h : Handler) : Handler :=
  mkHandler (ChannelSize h) (alter (drop 1) i (ProcessChannel h)) (EipStatusMap h).

Fixpoint process_events (i : nat) (es : list event) : M unit :=
  match es with
  | [] => mret tt
  | e :: es' =>
      modify_hd (pop_channel i);;
      process_event i e;;
      process_events i es'
  end.

Definition process (i : nat) : M unit :=
  h ← get_hd;
  match ProcessChannel h !! i with
  | None => panic "index out of range"
  | Some q => process_events i q
  end.

(** ** [Handler.insert2Queue] *)

(** [h.ProcessChannel[hash] <- event] on a buffered channel. *)
Definition send (hash : Z) (e : event) : M unit :=
  h ← get_hd;
  if bool_decide (hash < 0) then panic "index out of range"
  else
    match ProcessChannel h !! Z.to_nat hash with
    | None => panic "index out of range"
    | Some q =>
        if bool_decide (channel_capacity ≤ length q)%nat
        then λ s, Block (Z.to_nat hash) e s
        else modify_hd (λ h, mkHandler (ChannelSize h)
                                       (<[Z.to_nat hash := q ++ [e]]> (ProcessChannel h))
                                       (EipStatusMap h))
    end.

Definition insert2Queue (e : event) : M unit :=
  h ← get_hd;
  if bool_decide (ChannelSize h = 0) then panic "integer divide by zero"
  else
    let hash := Z.rem (int32 (PodIP2Int e)) (ChannelSize h) in
    send hash e;;
    log InfoLevel "insert event to queue" [("event", FEvent e); ("has", FInt hash)].

(** ** [Handler.HandleEvent] *)

Definition type_annotation : string :=
  "service.beta.kubernetes.io/aws-eip-pod-controller-type".
Definition shield_annotation : string :=
  "service.beta.kubernetes.io/aws-eip-pod-controller-shield".

(** [val, ok := annotations[key]; ok && val == want] *)
Definition annotated (annotations : gmap string string) (key want : string) : bool :=
  match annotations !! key with
  | Some val => bool_decide (val = want)
  | None => false
  end.

(** The [switch action] of [HandleEvent] (lines 103-126) on the candidate
    event: the event to insert, or [None] for the [return] of the "update"
    case that ignores the notification. *)
Definition HandleEvent_switch (o : Unstructured) (oldObj : option Unstructured)
    (action : string) (candidate : event) : M (option event) :=
  let event := candidate in
  if bool_decide (action = "update") then
    let annotations := GetAnnotations o in
    old ← deref oldObj;
    let oldAnnotations := GetAnnotations old in
    if annotated annotations type_annotation "auto" then
      let event := mkEvent (PodIP event) (ResourceVersion event) true (ShiedAdv event) in
      if annotated annotations shield_annotation "advanced" then
        mret (Some (mkEvent (PodIP event) (ResourceVersion event) (AttachIP event) true))
      else mret (Some event)
    else
      if annotated oldAnnotations type_annotation "auto" then
        mret (Some (mkEvent (PodIP event) (ResourceVersion event) false (ShiedAdv event)))
      else
        log InfoLevel "ignore update event"
            [("newobj", FObject o); ("oldobj", FObject old)];;
        mret None
  else if bool_decide (action = "delete") then
    let event := mkEvent (PodIP event) (ResourceVersion event) (AttachIP event) false in
    mret (Some (mkEvent (PodIP event) (ResourceVersion event) false (ShiedAdv event)))
  else mret (Some event).

Definition HandleEvent (obj oldObj : option Unstructured) (action : string)
  : M (option error) :=
  o ← deref obj;
  let '(phase, exist_, err) := NestedString (Object o) ["status"; "phase"] in
  if bool_decide (err ≠ None) then mret err
  else if exist_ && bool_decide (phase ≠ "Running") then
    log InfoLevel ("phase: " +:+ phase) [];;
    mret err
  else
  let '(podIP, exist_, err) := NestedString (Object o) ["status"; "podIP"] in
  if bool_decide (err ≠ None) then mret err
  else if exist_ && bool_decide (String.length podIP = 0%nat) then
    log InfoLevel "podIP is empty" [];;
    mret err
  else
  log InfoLevel "" [("name", FString (GetName o));
                    ("uid", FString (GetUID o));
                    ("resource_version", FString (GetResourceVersion o));
                    ("annotions", FStringMap (GetAnnotations o));
                    ("phase", FString phase);
                    ("podIP", FString podIP);
                    ("action", FString action)];;
  let event := mkEvent podIP (GetResourceVersion o) false false in
  switched ← HandleEvent_switch o oldObj action event;
  match switched with
  | None => mret err
  | Some event =>
      insert2Queue event;;
      mret err
  end.

End Machine.

(** ** [Handler.init]: [ChannelSize] empty queues and empty state maps; a
    negative size makes [make] panic. *)
Definition init (channelSize : Z) : option Handler :=
  if bool_decide (channelSize < 0) then None
  else Some (mkHandler channelSize
                       (replicate (Z.to_nat channelSize) [])
                       (replicate (Z.to_nat channelSize) ∅)).

(** ** Observations on results *)

Section Observations.
Context `{C : Collaborators}.

Definition final_state {A} (r : Res A) : State :=
  match r with
  | Ok _ s => s
  | Panic _ s => s
  | Block _ _ s => s
  end.

(** The calls of the reconciliation boundary made up to the end of a run. *)
Definition reconciliation_calls {A} (r : Res A) : list Call := calls (final_state r).

(** The entry [process] writes when it receives [e]. *)
Definition received_entry (e : event) : Entry :=
  mkEntry InfoLevel "process event" [("event", FEvent e)].

(** The lane state map of lane [i], when the lane exists. *)
Definition lane_state (i : nat) (s : State) : option (gmap string event) :=
  EipStatusMap (hd s) !! i.

(** The first of two submissions of [e] leaves an entry for [e] behind: its
    identity had an entry of another version, or it had none and the
    creation call reports no error. *)
Definition first_is_recorded (m : gmap string event) (e : event) (s : State) : Prop :=
  match m !! PodIP e with
  | Some val => ResourceVersion val ≠ ResourceVersion e
  | None => (Process e None (world s)).2 = None
  end.

(** [s] with the entries [l] appended to the log. *)
Definition logged (l : list Entry) (s : State) : State :=
  mkState (hd s) (world s) (calls s) (logs s ++ l).

(** What [HandleEvent] reads from the status of a snapshot. *)
Definition phase_of (u : Unstructured) : string :=
  (NestedString (Object u) ["status"; "phase"]).1.1.
Definition podIP_of (u : Unstructured) : string :=
  (NestedString (Object u) ["status"; "podIP"]).1.1.

(** The phase filter lets a snapshot through: the phase is read without
    error and is absent or "Running". *)
Definition passes_phase_filter (u : Unstructured) : bool :=
  match NestedString (Object u) ["status"; "phase"] with
  | (phase, exist_, None) => negb (exist_ && bool_decide (phase ≠ "Running"))
  | _ => false
  end.

(** The address filter lets a snapshot through: the address is read without
    error and is absent or not empty. *)
Definition passes_address_filter (u : Unstructured) : bool :=
  match NestedString (Object u) ["status"; "podIP"] with
  | (podIP, exist_, None) => negb (exist_ && bool_decide (String.length podIP = 0%nat))
  | _ => false
  end.

(** The entry [HandleEvent] writes for a snapshot that passed both filters. *)
Definition notification_entry (u : Unstructured) (action : string) : Entry :=
  mkEntry InfoLevel ""
    [("name", FString (GetName u));
     ("uid", FString (GetUID u));
     ("resource_version", FString (GetResourceVersion u));
     ("annotions", FStringMap (GetAnnotations u));
     ("phase", FString (phase_of u));
     ("podIP", FString (podIP_of u));
     ("action", FString action)].

(** The lane [insert2Queue] computes for an event. *)
Definition lane_hash (e : event) (h : Handler) : Z :=
  Z.rem (int32 (PodIP2Int e)) (ChannelSize h).

(** The entry [insert2Queue] writes after the send. *)
Definition inserted_entry (e : event) (h : Handler) : Entry :=
  mkEntry InfoLevel "insert event to queue"
    [("event", FEvent e); ("has", FInt (lane_hash e h))].

(** [e] appended to the queue of lane [i]. *)
Definition enqueue (i : nat) (e : event) (h : Handler) : Handler :=
  mkHandler (ChannelSize h) (alter (λ q, q ++ [e]) i (ProcessChannel h)) (EipStatusMap h).

(** The candidate event of [HandleEvent] (lines 97-102). *)
Definition candidate_event (u : Unstructured) : event :=
  mkEvent (podIP_of u) (GetResourceVersion u) false false.

(** The end of [HandleEvent]: [h.insert2Queue(event)] and [return]. *)
Definition insert_and_return (e : event) : M (option error) :=
  insert2Queue e;; mret None.

(** The auto-attach marker is present with its enabling value; the
    advanced-shield marker is. *)
Definition marked (u : Unstructured) : bool :=
  annotated (GetAnnotations u) type_annotation "auto".
Definition shielded (u : Unstructured) : bool :=
  annotated (GetAnnotations u) shield_annotation "advanced".

(** The entry written for an update that is ignored. *)
Definition ignored_entry (u old : Unstructured) : Entry :=
  mkEntry InfoLevel "ignore update event" [("newobj", FObject u); ("oldobj", FObject old)].

(** The lane of [e] exists and its queue has room: [insert2Queue] neither
    panics nor blocks. *)
Definition lane_has_room (e : event) (h : Handler) : Prop :=
  ChannelSize h ≠ 0 ∧ 0 ≤ lane_hash e h
  ∧ ∃ q, ProcessChannel h !! Z.to_nat (lane_hash e h) = Some q
         ∧ (length q < channel_capacity)%nat.

(** [s] after the entries [l] were logged and [e] was sent to its lane. *)
Definition dispatched (e : event) (l : list Entry) (s : State) : State :=
  logged (l ++ [inserted_entry e (hd s)])
         (with_hd (enqueue (Z.to_nat (lane_hash e (hd s))) e) s).

(** The invariant of the data model on the two flags. *)
Definition flags_ok (e : event) : Prop := AttachIP e = false → ShiedAdv e = false.

End Observations.

(** ** Start-up: [getInfo] and [NewHandler] *)

(** What [client.Get(url)] followed by [io.ReadAll(res.Body)] can give: the
    request fails, or a body arrives whose reading yields the bytes read and
    an error or nil. *)
Inductive HttpResult : Type :=
| GetFailed (err : error)
| GotBody (data : string) (read_err : option error).

(** The collaborators of the start-up code: the instance metadata endpoint
    ([http_Get] answers a request given the requests made before it),
    [gjson.Get(document, "region").String()], and the constructors of package
    service. *)
Class Bootstrap : Type := {
  EC2Service : Type;
  ShiedService : Type;
  http_Get : list string → string → HttpResult;
  gjson_region : string → string;
  NewEC2Service : string → string → EC2Service + error;
  NewShieldService : string → string → ShiedService + error
}.

(** [strings.Split(s, "\n")[0]]: what precedes the first newline. *)
Fixpoint first_line (s : string) : string :=
  match s with
  | EmptyString => EmptyString
  | String c rest =>
      if Ascii.eqb c "010"%char then EmptyString else String c (first_line rest)
  end.

Definition macs_url : string :=
  "http://instance-data/latest/meta-data/network/interfaces/macs/".
Definition document_url : string :=
  "http://instance-data/latest/dynamic/instance-identity/document".

(** The address [getInfo] asks for the VPC identifier, given the listing of
    the interfaces. *)
Definition vpc_id_url (macs : string) : string :=
  macs_url +:+ first_line macs +:+ "/vpc-id".

Section Startup.
Context `{B : Bootstrap}.

(** The requests sent so far and the entries logged so far. *)
Record BootState : Type := mkBootState {
  requests : list string;
  boot_logs : list Entry
}.

(** [client.Get(url)]: the request is sent and answered. *)
Definition client_Get (url : string) (b : BootState) : HttpResult * BootState :=
  (http_Get (requests b) url, mkBootState (requests b ++ [url]) (boot_logs b)).

(** [getInfo]: the results [(vpcid, region, err)]. *)
Definition getInfo (b : BootState) : string * string * option error * BootState :=
  let vpcid := "" in
  let region := "" in
  let url := macs_url in
  let '(res, b) := client_Get url b in
  match res with
  | GetFailed err => (vpcid, region, Some err, b)
  | GotBody macs (Some err) => (vpcid, region, Some err, b)
  | GotBody macs None =>
      let mac := first_line macs in
      let url := url +:+ mac +:+ "/vpc-id" in
      (* [client.Get(url)], its results dropped; [err] is still nil *)
      let '(_, b) := client_Get url b in
      let '(res, b) := client_Get url b in
      match res with
      | GetFailed err => (vpcid, region, Some err, b)
      | GotBody vpcID (Some err) => (vpcid, region, Some err, b)
      | GotBody vpcID None =>
          let vpcid := vpcID in
          let url := document_url in
          let '(res, b) := client_Get url b in
          match res with
          | GetFailed err => (vpcid, region, Some err, b)
          | GotBody document (Some err) => (vpcid, region, Some err, b)
          | GotBody document None =>
              let region := gjson_region document in
              (vpcid, region, None,
               mkBootState (requests b)
                 (boot_logs b ++ [mkEntry InfoLevel "get info from imds"
                                    [("vpcid", FString vpcid);
                                     ("region", FString region)]]))
          end
      end
  end.

(** What [NewHandler] hands back: the handler with its two services. *)
Record Built : Type := mkBuilt {
  built_handler : Handler;
  built_EC2Service : EC2Service;
  built_ShiedService : ShiedService
}.

(** [NewHandler] returns [(handler, err)], or panics in [init]. *)
Inductive NewResult : Type :=
| Returned (handler : option Built) (err : option error)
| InitPanic.

Definition NewHandler_services (channelSize : Z) (vpcid region : string) : NewResult :=
  match NewEC2Service vpcid region with
  | inr err => Returned None (Some err)
  | inl ec2Service =>
      match NewShieldService vpcid region with
      | inr err => Returned None (Some err)
      | inl shieldService =>
          match init channelSize with
          | None => InitPanic
          | Some h => Returned (Some (mkBuilt h ec2Service shieldService)) None
          end
      end
  end.

Definition NewHandler (channelSize : Z) (vpcid region : string) (b : BootState)
  : NewResult * BootState :=
  if bool_decide (String.length vpcid = 0%nat) || bool_decide (String.length region = 0%nat)
  then
    let '(vpcid, region, err, b) := getInfo b in
    match err with
    | Some er => (Returned None (Some er), b)
    | None => (NewHandler_services channelSize vpcid region, b)
    end
  else (NewHandler_services channelSize vpcid region, b).

End Startup.

(** ** Invariants of the handler *)


(** Every entry of a lane state map sits under the identity of its event. *)
Definition keyed (m : gmap string event) : Prop :=
  map_Forall (λ k e, PodIP e = k) m.

(** ** Sample collaborators, snapshots and states *)

Module Samples.

(** A boundary whose calls all succeed, and one whose calls all fail. *)
Definition succeeding : Collaborators :=
  {| World := unit;
     Process := λ _ _ w, (w, None);
     PodIP2Int := λ e, Z.of_nat (String.length (PodIP e)) |}.
Definition failing : Collaborators :=
  {| World := unit;
     Process := λ _ _ w, (w, Some "AllocateAddress: RequestLimitExceeded");
     PodIP2Int := λ e, Z.of_nat (String.length (PodIP e)) |}.

(** A pod snapshot with the given status fields, version and annotations. *)
Definition pod (phase podIP : option string) (rv : string)
    (annotations : list (string * string)) : Unstructured :=
  mkUnstructured
    (<["metadata" :=
         VMap (<["resourceVersion" := VString rv]>
              (<["annotations" := VMap (list_to_map (prod_map id VString <$> annotations))]> ∅))]>
    (<["status" :=
         VMap (from_option (λ p, <["phase" := VString p]>) id phase
              (from_option (λ p, <["podIP" := VString p]>) id podIP ∅))]> ∅)).

Definition three_lanes : Handler := mkHandler 3 [[]; []; []] [∅; ∅; ∅].

Definition start (C : Collaborators) (w : @World C) : @State C :=
  mkState three_lanes w [] [].

Definition e100 : event := mkEvent "10.0.0.5" "100" true false.
Definition e101 : event := mkEvent "10.0.0.5" "101" true true.

(** Lane 0 already holds [e100] for the identity 10.0.0.5. *)
Definition seen (C : Collaborators) (w : @World C) : @State C :=
  mkState (mkHandler 3 [[]; []; []] [{[ "10.0.0.5" := e100 ]}; ∅; ∅]) w [] [].

Definition annotated_pod : Unstructured :=
  pod (Some "Running") (Some "10.0.0.5") "100" [(type_annotation, "auto")].
Definition shielded_pod : Unstructured :=
  pod (Some "Running") (Some "10.0.0.5") "101"
      [(type_annotation, "auto"); (shield_annotation, "advanced")].
Definition plain_pod : Unstructured :=
  pod (Some "Running") (Some "10.0.0.5") "102" [].
Definition pending_pod : Unstructured :=
  pod (Some "Pending") None "7" [(type_annotation, "auto")].
Definition empty_address_pod : Unstructured :=
  pod (Some "Running") (Some "") "9" [(type_annotation, "auto")].

End Samples.

(** Further samples: an identity hash taken from the four bytes of an
    address, a full lane, a lane that knows an identity, a malformed
    snapshot, and a metadata endpoint. *)
Module MoreSamples.

(** [PodIP2Int] gives 192.168.1.1 as the unsigned number 3232235777. *)
Definition ipv4 : Collaborators :=
  {| World := unit;
     Process := λ _ _ w, (w, None);
     PodIP2Int := λ _, 3232235777 |}.

Definition no_lanes (C : Collaborators) (w : @World C) : @State C :=
  mkState (mkHandler 0 [] []) w [] [].

(** Lane 2, the lane of the identity 10.0.0.5 under [Samples.succeeding],
    holds [channel_capacity] events. *)
Definition full (C : Collaborators) (w : @World C) : @State C :=
  mkState (mkHandler 3 [[]; []; replicate channel_capacity Samples.e100] [∅; ∅; ∅])
          w [] [].

(** Lane 2 knows the identity 10.0.0.5 at version 100. *)
Definition known (C : Collaborators) (w : @World C) : @State C :=
  mkState (mkHandler 3 [[]; []; []] [∅; ∅; {[ "10.0.0.5" := Samples.e100 ]}]) w [] [].

(** Lane 0 has received an event of another identity between two deliveries
    of [Samples.e100]. *)
Definition other_event : event := mkEvent "10.0.0.9" "7" true false.

(** A snapshot whose status is a string. *)
Definition broken_pod : Unstructured :=
  mkUnstructured (<["status" := VString "Running"]> ∅).

Definition listing : string :=
  String.append "0a:1b:2c:3d:4e:5f/" (String "010" "0a:1b:2c:3d:4e:60/").

(** An endpoint that answers the four requests of [getInfo] in turn, the
    first request for the VPC identifier with a failure. *)
Definition imds : Bootstrap :=
  {| EC2Service := unit;
     ShiedService := unit;
     http_Get := λ sent _,
       match length sent with
       | 0%nat => GotBody listing None
       | 1%nat => GetFailed "context deadline exceeded"
       | 2%nat => GotBody "vpc-0a1b2c3d" None
       | _ => GotBody "{region: eu-west-1}" None
       end;
     gjson_region := λ _, "eu-west-1";
     NewEC2Service := λ _ _, inl tt;
     NewShieldService := λ _ _, inl tt |}.

(** An endpoint that does not answer. *)
Definition unreachable : Bootstrap :=
  {| EC2Service := unit;
     ShiedService := unit;
     http_Get := λ _ _, GetFailed "no route to host";
     gjson_region := λ _, "";
     NewEC2Service := λ _ _, inl tt;
     NewShieldService := λ _ _, inl tt |}.

Definition boot : BootState := mkBootState [] [].

End MoreSamples.

(** ** The lane worker *)

Section Worker.
Context `{C : Collaborators}.

Lemma map_index_Some (m : gmap string event) k v :
  m !! k = Some v → map_index m k = (v, true).
Proof. intros H. unfold map_index. by rewrite H. Qed.

Lemma map_index_None (m : gmap string event) k :
  m !! k = None → map_index m k = (zero_event, false).
Proof. intros H. unfold map_index. by rewrite H. Qed.

Lemma lane_state_set_status i k e s m :
  lane_state i s = Some m →
  EipStatusMap (set_status i k e (hd s)) !! i = Some (<[k := e]> m).
Proof.
  unfold lane_state. intros H. simpl.
  rewrite list_lookup_alter_eq. by rewrite H.
Qed.

(** The three branches of the loop body, as equations. *)
Lemma process_event_duplicate s i e m val :
  lane_state i s = Some m →
  m !! PodIP e = Some val →
  ResourceVersion val = ResourceVersion e →
  process_event i e s =
    Ok tt (with_logs (λ l, l ++ [received_entry e;
                                 mkEntry InfoLevel "same resource version" []]) s).
Proof.
  unfold lane_state. intros Hm Hval Hrv.
  unfold process_event, mbind, M_bind, log, get_hd. simpl.
  rewrite Hm, (map_index_Some _ _ _ Hval). simpl.
  rewrite bool_decide_eq_true_2 by done.
  unfold with_logs. simpl. by rewrite <- app_assoc.
Qed.

Lemma process_event_creation s i e m :
  lane_state i s = Some m →
  m !! PodIP e = None →
  process_event i e s =
    match Process e None (world s) with
    | (w, Some er) =>
        Ok tt (mkState (hd s) w (calls s ++ [(None, e)])
                       (logs s ++ [received_entry e; mkEntry ErrorLevel er []]))
    | (w, None) =>
        Ok tt (mkState (set_status i (PodIP e) e (hd s)) w (calls s ++ [(None, e)])
                       (logs s ++ [received_entry e]))
    end.
Proof.
  unfold lane_state. intros Hm Hval.
  unfold process_event, mbind, M_bind, log, get_hd, call_Process. simpl.
  rewrite Hm, (map_index_None _ _ Hval). simpl.
  destruct (Process e None (world s)) as [w [er|]]; simpl; [|done].
  unfold with_logs. simpl. by rewrite <- app_assoc.
Qed.

Lemma process_event_transition s i e m val :
  lane_state i s = Some m →
  m !! PodIP e = Some val →
  ResourceVersion val ≠ ResourceVersion e →
  process_event i e s =
    Ok tt (mkState (set_status i (PodIP e) e (hd s))
                   (Process e (Some val) (world s)).1
                   (calls s ++ [(Some val, e)])
                   (logs s ++ [received_entry e])).
Proof.
  unfold lane_state. intros Hm Hval Hrv.
  unfold process_event, mbind, M_bind, log, get_hd, call_Process. simpl.
  rewrite Hm, (map_index_Some _ _ _ Hval). simpl.
  rewrite bool_decide_eq_false_2 by done. simpl.
  by destruct (Process e (Some val) (world s)) as [w er].
Qed.

(** One turn of the loop on an existing lane returns, and the lane is still
    there. *)
Lemma process_event_returns s i e :
  is_Some (lane_state i s) →
  ∃ s', process_event i e s = Ok tt s'
        ∧ is_Some (lane_state i s')
        ∧ ProcessChannel (hd s') = ProcessChannel (hd s).
Proof.
  intros [m Hm].
  destruct (m !! PodIP e) as [val|] eqn:Hval.
  - destruct (decide (ResourceVersion val = ResourceVersion e)) as [Hrv|Hrv].
    + rewrite (process_event_duplicate _ _ _ _ _ Hm Hval Hrv).
      eexists. split; [done|]. split; [by exists m|done].
    + rewrite (process_event_transition _ _ _ _ _ Hm Hval Hrv).
      eexists. split; [done|]. split; [|done].
      eexists. by apply lane_state_set_status.
  - rewrite (process_event_creation _ _ _ _ Hm Hval).
    destruct (Process e None (world s)) as [w [er|]].
    + eexists. split; [done|]. split; [by exists m|done].
    + eexists. split; [done|]. split; [|done].
      eexists. by apply lane_state_set_status.
Qed.

(** The worker of an existing lane handles any batch of received events and
    returns: it neither panics nor blocks. *)
Lemma process_events_returns es : ∀ s i,
  is_Some (lane_state i s) →
  ∃ s', process_events i es s = Ok tt s' ∧ is_Some (lane_state i s').
Proof.
  induction es as [|e es IH]; intros s i Hlane.
  - by exists s.
  - simpl. unfold mbind, M_bind, modify_hd.
    destruct (process_event_returns (with_hd (pop_channel i) s) i e Hlane)
      as (s1 & -> & Hlane1 & _).
    by apply IH.
Qed.

End Worker.

Section WorkerClaims.
Context `{C : Collaborators}.

(** C1 (as amended).  An event whose identity has an entry of the same
    version in its lane's state map is discarded: the boundary is not called,
    the external world and the state map stay as they are, and only two Info
    entries are logged.  Hence two submissions in a row of the same
    (identity, version) make exactly one reconciliation call, provided the
    first one is recorded: the identity had an entry of another version, or it
    had none and the creation call succeeded. *)
Theorem duplicate_suppression s i e m :
  lane_state i s = Some m →
  (∀ val, m !! PodIP e = Some val →
          ResourceVersion val = ResourceVersion e →
          process_event i e s =
            Ok tt (with_logs (λ l, l ++ [received_entry e;
                                         mkEntry InfoLevel "same resource version" []]) s))
  ∧ (first_is_recorded m e s →
     ∃ s', (process_event i e;; process_event i e) s = Ok tt s'
           ∧ calls s' = calls s ++ [(m !! PodIP e, e)]
           ∧ lane_state i s' = Some (<[PodIP e := e]> m)).
Proof.
  intros Hm. split.
  - intros val Hval Hrv. by eapply process_event_duplicate.
  - unfold first_is_recorded. intros Hrec.
    unfold mbind, M_bind.
    destruct (m !! PodIP e) as [val|] eqn:Hval.
    + rewrite (process_event_transition _ _ _ _ _ Hm Hval Hrec).
      eexists. split.
      * eapply process_event_duplicate.
        -- by apply lane_state_set_status.
        -- apply lookup_insert_eq.
        -- done.
      * split; [done|]. by apply lane_state_set_status.
    + rewrite (process_event_creation _ _ _ _ Hm Hval).
      destruct (Process e None (world s)) as [w [er|]]; [done|].
      eexists. split.
      * eapply process_event_duplicate.
        -- by apply lane_state_set_status.
        -- apply lookup_insert_eq.
        -- done.
      * split; [done|]. by apply lane_state_set_status.
Qed.

(** C2.  On the transition path an error reported by the boundary leaves no
    log entry: the only entry written is the Info entry that precedes the
    call, and the new event is recorded. *)
Theorem transition_error_leaves_no_record s i e m val er :
  lane_state i s = Some m →
  m !! PodIP e = Some val →
  ResourceVersion val ≠ ResourceVersion e →
  (Process e (Some val) (world s)).2 = Some er →
  ∃ s', process_event i e s = Ok tt s'
        ∧ logs s' = logs s ++ [received_entry e]
        ∧ lane_state i s' = Some (<[PodIP e := e]> m).
Proof.
  intros Hm Hval Hrv _.
  rewrite (process_event_transition _ _ _ _ _ Hm Hval Hrv).
  eexists. split; [done|]. split; [done|]. by apply lane_state_set_status.
Qed.

(** C3.  An event whose identity has no entry in its lane's state map goes
    to the boundary with a nil previous event.  When that call reports an
    error, the error is logged and the handler (the state map with it) is
    left as it was, so that the same event delivered again calls the creation
    path again. *)
Theorem creation_path s i e m :
  lane_state i s = Some m →
  m !! PodIP e = None →
  ∃ s', process_event i e s = Ok tt s'
        ∧ calls s' = calls s ++ [(None, e)]
        ∧ world s' = (Process e None (world s)).1
        ∧ match (Process e None (world s)).2 with
          | Some er =>
              hd s' = hd s
              ∧ logs s' = logs s ++ [received_entry e; mkEntry ErrorLevel er []]
              ∧ ∃ s'', process_event i e s' = Ok tt s''
                       ∧ calls s'' = calls s ++ [(None, e); (None, e)]
          | None => lane_state i s' = Some (<[PodIP e := e]> m)
          end.
Proof.
  intros Hm Hval.
  rewrite (process_event_creation _ _ _ _ Hm Hval).
  destruct (Process e None (world s)) as [w [er|]] eqn:HP; simpl.
  - eexists. split; [done|]. split; [done|]. split; [done|].
    split; [done|]. split; [done|].
    rewrite (process_event_creation _ i e m); [|done..]. simpl.
    destruct (Process e None w) as [w' [er'|]]; eexists; (split; [done|]);
      simpl; by rewrite <- app_assoc.
  - eexists. split; [done|]. split; [done|]. split; [done|].
    by apply lane_state_set_status.
Qed.

(** C4.  An event whose identity has an entry of another version goes to the
    boundary with that entry as the previous event, and is then recorded as
    the lane's state for the identity, whatever the call reports. *)
Theorem transition_path s i e m val :
  lane_state i s = Some m →
  m !! PodIP e = Some val →
  ResourceVersion val ≠ ResourceVersion e →
  ∃ s', process_event i e s = Ok tt s'
        ∧ calls s' = calls s ++ [(Some val, e)]
        ∧ world s' = (Process e (Some val) (world s)).1
        ∧ lane_state i s' = Some (<[PodIP e := e]> m).
Proof.
  intros Hm Hval Hrv.
  rewrite (process_event_transition _ _ _ _ _ Hm Hval Hrv).
  eexists. split; [done|]. split; [done|]. split; [done|].
  by apply lane_state_set_status.
Qed.

End WorkerClaims.

(** The identity 10.0.0.5 is known at version 100 and [e100] comes again;
    and [e100] submitted twice to a fresh lane whose creation call succeeds. *)
Lemma duplicate_suppression_witness :
  (process_event (C := Samples.succeeding) 0 Samples.e100 (Samples.seen Samples.succeeding tt)
   = Ok tt (with_logs (λ l, l ++ [received_entry Samples.e100;
                                  mkEntry InfoLevel "same resource version" []])
                      (Samples.seen Samples.succeeding tt)))
  ∧ ∃ s', (process_event (C := Samples.succeeding) 0 Samples.e100;;
           process_event 0 Samples.e100) (Samples.start Samples.succeeding tt) = Ok tt s'
          ∧ calls s' = [(None, Samples.e100)]
          ∧ lane_state 0 s' = Some (<["10.0.0.5" := Samples.e100]> ∅).
Proof.
  split.
  - apply (proj1 (duplicate_suppression (C := Samples.succeeding)
                    (Samples.seen Samples.succeeding tt) 0%nat Samples.e100
                    {[ "10.0.0.5" := Samples.e100 ]} eq_refl) Samples.e100);
      reflexivity.
  - apply (proj2 (duplicate_suppression (C := Samples.succeeding)
                    (Samples.start Samples.succeeding tt) 0%nat Samples.e100
                    ∅ eq_refl)).
    reflexivity.
Defined.

(** With a creation call that fails, the same event submitted twice to a
    fresh lane reaches the boundary twice. *)
Lemma failed_creation_is_called_twice :
  reconciliation_calls
    ((process_event (C := Samples.failing) 0 Samples.e100;;
      process_event 0 Samples.e100) (Samples.start Samples.failing tt))
  = [(None, Samples.e100); (None, Samples.e100)].
Proof. vm_compute. reflexivity. Qed.

Lemma transition_error_leaves_no_record_witness :
  ∃ s', process_event (C := Samples.failing) 0 Samples.e101 (Samples.seen Samples.failing tt)
        = Ok tt s'
        ∧ logs s' = [received_entry Samples.e101]
        ∧ lane_state 0 s' = Some (<["10.0.0.5" := Samples.e101]> {[ "10.0.0.5" := Samples.e100 ]}).
Proof.
  apply (transition_error_leaves_no_record (C := Samples.failing)
           (Samples.seen Samples.failing tt) 0%nat Samples.e101
           {[ "10.0.0.5" := Samples.e100 ]} Samples.e100
           "AllocateAddress: RequestLimitExceeded");
    [reflexivity | reflexivity | vm_compute; congruence | reflexivity].
Defined.

Lemma creation_path_witness :
  ∃ s', process_event (C := Samples.failing) 0 Samples.e100 (Samples.start Samples.failing tt)
        = Ok tt s'
        ∧ calls s' = [(None, Samples.e100)]
        ∧ world s' = tt
        ∧ hd s' = Samples.three_lanes
        ∧ logs s' = [received_entry Samples.e100;
                     mkEntry ErrorLevel "AllocateAddress: RequestLimitExceeded" []]
        ∧ ∃ s'', process_event (C := Samples.failing) 0 Samples.e100 s' = Ok tt s''
                 ∧ calls s'' = [(None, Samples.e100); (None, Samples.e100)].
Proof.
  apply (creation_path (C := Samples.failing)
           (Samples.start Samples.failing tt) 0%nat Samples.e100 ∅);
    reflexivity.
Defined.

Lemma transition_path_witness :
  ∃ s', process_event (C := Samples.succeeding) 0 Samples.e101
          (Samples.seen Samples.succeeding tt) = Ok tt s'
        ∧ calls s' = [(Some Samples.e100, Samples.e101)]
        ∧ world s' = tt
        ∧ lane_state 0 s' = Some (<["10.0.0.5" := Samples.e101]> {[ "10.0.0.5" := Samples.e100 ]}).
Proof.
  apply (transition_path (C := Samples.succeeding)
           (Samples.seen Samples.succeeding tt) 0%nat Samples.e101
           {[ "10.0.0.5" := Samples.e100 ]} Samples.e100);
    [reflexivity | reflexivity | vm_compute; congruence].
Defined.

(** ** The dispatcher *)

Section Dispatcher.
Context `{C : Collaborators}.

Lemma insert2Queue_enqueues e s :
  lane_has_room e (hd s) →
  insert2Queue e s
  = Ok tt (logged [inserted_entry e (hd s)]
                  (with_hd (enqueue (Z.to_nat (lane_hash e (hd s))) e) s)).
Proof.
  intros (Hz & Hpos & q & Hq & Hroom).
  unfold insert2Queue, send, mbind, M_bind, get_hd, panic. simpl.
  rewrite (bool_decide_eq_false_2 _ Hz).
  fold (lane_hash e (hd s)).
  rewrite bool_decide_eq_false_2 by lia.
  rewrite Hq. rewrite bool_decide_eq_false_2 by lia.
  unfold modify_hd, log, with_logs, with_hd, logged, enqueue. simpl.
  do 3 f_equal.
  apply list_eq. intros j. rewrite list_lookup_alter, list_lookup_insert, Hq.
  pose proof (lookup_lt_Some _ _ _ Hq) as Hlt. simpl.
  destruct (decide (Z.to_nat (lane_hash e (hd s)) = j)) as [Heq|Hne].
  - by rewrite decide_True.
  - rewrite decide_False; [done|]. by intros [? _].
Qed.

(** [insert2Queue] panics or blocks before it changes anything, or it
    appends the event to the queue of its lane. *)
Lemma insert2Queue_cases e s :
  (∃ r, insert2Queue e s = Panic r s)
  ∨ (∃ lane, insert2Queue e s = Block lane e s)
  ∨ (lane_has_room e (hd s)
     ∧ insert2Queue e s
       = Ok tt (logged [inserted_entry e (hd s)]
                       (with_hd (enqueue (Z.to_nat (lane_hash e (hd s))) e) s))).
Proof.
  destruct (decide (ChannelSize (hd s) = 0)) as [Hz|Hz].
  { left. unfold insert2Queue, mbind, M_bind, get_hd, panic. simpl.
    rewrite (bool_decide_eq_true_2 _ Hz). eauto. }
  destruct (decide (lane_hash e (hd s) < 0)) as [Hneg|Hneg].
  { left. unfold insert2Queue, send, mbind, M_bind, get_hd, panic. simpl.
    rewrite (bool_decide_eq_false_2 _ Hz). fold (lane_hash e (hd s)).
    rewrite (bool_decide_eq_true_2 _ Hneg). eauto. }
  destruct (ProcessChannel (hd s) !! Z.to_nat (lane_hash e (hd s))) as [q|] eqn:Hq;
    last first.
  { left. unfold insert2Queue, send, mbind, M_bind, get_hd, panic. simpl.
    rewrite (bool_decide_eq_false_2 _ Hz). fold (lane_hash e (hd s)).
    rewrite (bool_decide_eq_false_2 _ Hneg), Hq. eauto. }
  destruct (decide (channel_capacity ≤ length q)%nat) as [Hfull|Hroom].
  { right. left. unfold insert2Queue, send, mbind, M_bind, get_hd, panic. simpl.
    rewrite (bool_decide_eq_false_2 _ Hz). fold (lane_hash e (hd s)).
    rewrite (bool_decide_eq_false_2 _ Hneg), Hq.
    rewrite (bool_decide_eq_true_2 _ Hfull). eauto. }
  right. right.
  assert (lane_has_room e (hd s)) as Hr.
  { split; [done|]. split; [lia|]. exists q. split; [done|lia]. }
  split; [done|]. by apply insert2Queue_enqueues.
Qed.

Lemma insert_and_return_enqueues e l s :
  lane_has_room e (hd s) →
  insert_and_return e (logged l s) = Ok None (dispatched e l s).
Proof.
  intros Hr. unfold insert_and_return, mbind, M_bind.
  rewrite insert2Queue_enqueues by done.
  unfold dispatched, logged, with_hd, mret, M_ret. simpl.
  by rewrite <- app_assoc.
Qed.

End Dispatcher.

(** ** The translator *)

Section Translator.
Context `{C : Collaborators}.

Lemma annotated_true (m : gmap string string) k want :
  annotated m k want = true ↔ m !! k = Some want.
Proof.
  unfold annotated. destruct (m !! k) as [v|]; [|done].
  rewrite bool_decide_eq_true. split; congruence.
Qed.

Lemma annotated_bool_decide (m : gmap string string) k want :
  annotated m k want = bool_decide (m !! k = Some want).
Proof.
  apply eq_true_iff_eq. rewrite annotated_true. by rewrite bool_decide_eq_true.
Qed.

Lemma logged_logged l1 l2 (s : State) : logged l2 (logged l1 s) = logged (l1 ++ l2) s.
Proof. unfold logged. simpl. by rewrite <- app_assoc. Qed.

Lemma logged_nil (s : State) : logged [] s = s.
Proof. destruct s. unfold logged. simpl. by rewrite app_nil_r. Qed.

(** A snapshot that passes both filters reaches the switch, with the
    candidate event built from its address and version. *)
Lemma HandleEvent_passes s u oldObj action :
  passes_phase_filter u = true →
  passes_address_filter u = true →
  HandleEvent (Some u) oldObj action s =
    (switched ← HandleEvent_switch u oldObj action (candidate_event u);
     match switched with
     | None => mret None
     | Some e => insert_and_return e
     end) (logged [notification_entry u action] s).
Proof.
  unfold passes_phase_filter, passes_address_filter, HandleEvent,
    notification_entry, candidate_event, phase_of, podIP_of, insert_and_return.
  unfold mbind, M_bind, deref, mret, M_ret. cbv beta iota.
  destruct (NestedString (Object u) ["status"; "phase"]) as [[phase ex] [er|]];
    [done|].
  destruct (NestedString (Object u) ["status"; "podIP"]) as [[podIP ex'] [er'|]];
    [by intros _ ?|].
  intros Hp Ha. apply negb_true_iff in Hp, Ha.
  rewrite (bool_decide_eq_false_2 (None ≠ None)) by (intros H; by apply H).
  rewrite Hp, Ha. done.
Qed.

Lemma switch_update_marked s u old c :
  marked u = true →
  HandleEvent_switch u (Some old) "update" c s
  = Ok (Some (mkEvent (PodIP c) (ResourceVersion c) true
                      (if shielded u then true else ShiedAdv c))) s.
Proof.
  unfold marked, shielded, HandleEvent_switch. intros Hm.
  unfold mbind, M_bind, deref, mret, M_ret. simpl. rewrite Hm.
  by destruct (annotated _ shield_annotation _).
Qed.

Lemma switch_update_unmarked s u old c :
  marked u = false →
  HandleEvent_switch u (Some old) "update" c s
  = if marked old
    then Ok (Some (mkEvent (PodIP c) (ResourceVersion c) false (ShiedAdv c))) s
    else Ok None (logged [ignored_entry u old] s).
Proof.
  unfold marked, HandleEvent_switch. intros Hm.
  unfold mbind, M_bind, deref, mret, M_ret. simpl. rewrite Hm.
  by destruct (annotated (GetAnnotations old) _ _).
Qed.

Lemma switch_update_nil s u c :
  HandleEvent_switch u None "update" c s
  = Panic "invalid memory address or nil pointer dereference" s.
Proof. done. Qed.

Lemma switch_delete s u oldObj c :
  HandleEvent_switch u oldObj "delete" c s
  = Ok (Some (mkEvent (PodIP c) (ResourceVersion c) false false)) s.
Proof. done. Qed.

Lemma switch_other s u oldObj action c :
  action ≠ "update" → action ≠ "delete" →
  HandleEvent_switch u oldObj action c s = Ok (Some c) s.
Proof.
  intros H1 H2. unfold HandleEvent_switch.
  by rewrite !bool_decide_eq_false_2.
Qed.

(** Whatever the switch hands on satisfies the invariant on the flags, the
    candidate having its shield flag off. *)
Lemma switch_cases s u oldObj action c :
  ShiedAdv c = false →
  (∃ l, HandleEvent_switch u oldObj action c s = Ok None (logged l s))
  ∨ (∃ r, HandleEvent_switch u oldObj action c s = Panic r s)
  ∨ (∃ e, flags_ok e ∧ PodIP e = PodIP c ∧ ResourceVersion e = ResourceVersion c
          ∧ HandleEvent_switch u oldObj action c s = Ok (Some e) s).
Proof.
  unfold flags_ok. intros Hc.
  destruct (decide (action = "update")) as [->|Hu].
  - destruct oldObj as [old|]; [|right; left; eexists; apply switch_update_nil].
    destruct (marked u) eqn:Hm.
    + right. right.
      exists (mkEvent (PodIP c) (ResourceVersion c) true
                      (if shielded u then true else ShiedAdv c)).
      by rewrite (switch_update_marked _ _ _ _ Hm).
    + rewrite (switch_update_unmarked _ _ _ _ Hm).
      destruct (marked old).
      * right. right.
        exists (mkEvent (PodIP c) (ResourceVersion c) false (ShiedAdv c)).
        by split.
      * left. by eexists.
  - destruct (decide (action = "delete")) as [->|Hd].
    + right. right. exists (mkEvent (PodIP c) (ResourceVersion c) false false).
      by rewrite switch_delete.
    + right. right. exists c. by rewrite switch_other.
Qed.

Ltac open_HandleEvent :=
  unfold HandleEvent, mbind, M_bind, deref, mret, M_ret; cbv beta iota.

(** The four early returns of [HandleEvent]. *)
Lemma HandleEvent_phase_error s u oldObj action phase ex er :
  NestedString (Object u) ["status"; "phase"] = (phase, ex, Some er) →
  HandleEvent (Some u) oldObj action s = Ok (Some er) s.
Proof.
  intros H. open_HandleEvent. rewrite H. cbv beta iota.
  by rewrite bool_decide_eq_true_2.
Qed.

Lemma HandleEvent_phase_rejected s u oldObj action phase :
  NestedString (Object u) ["status"; "phase"] = (phase, true, None) →
  phase ≠ "Running" →
  HandleEvent (Some u) oldObj action s
  = Ok None (logged [mkEntry InfoLevel ("phase: " +:+ phase) []] s).
Proof.
  intros H Hne. open_HandleEvent. rewrite H. cbv beta iota.
  rewrite (bool_decide_eq_false_2 (None ≠ None)) by (intros E; by apply E).
  by rewrite (bool_decide_eq_true_2 _ Hne).
Qed.

Lemma passes_phase_filter_inv u :
  passes_phase_filter u = true →
  ∃ phase ex, NestedString (Object u) ["status"; "phase"] = (phase, ex, None)
              ∧ ex && bool_decide (phase ≠ "Running") = false.
Proof.
  unfold passes_phase_filter.
  destruct (NestedString (Object u) ["status"; "phase"]) as [[phase ex] [er|]];
    [done|].
  intros H. apply negb_true_iff in H. eauto.
Qed.

Lemma HandleEvent_address_error s u oldObj action podIP ex er :
  passes_phase_filter u = true →
  NestedString (Object u) ["status"; "podIP"] = (podIP, ex, Some er) →
  HandleEvent (Some u) oldObj action s = Ok (Some er) s.
Proof.
  intros (phase & ex' & Hp & Hc)%passes_phase_filter_inv H.
  open_HandleEvent. rewrite Hp, H. cbv beta iota.
  rewrite (bool_decide_eq_false_2 (None ≠ None)) by (intros E; by apply E).
  rewrite Hc. by rewrite bool_decide_eq_true_2.
Qed.

Lemma HandleEvent_address_rejected s u oldObj action :
  passes_phase_filter u = true →
  NestedString (Object u) ["status"; "podIP"] = ("", true, None) →
  HandleEvent (Some u) oldObj action s
  = Ok None (logged [mkEntry InfoLevel "podIP is empty" []] s).
Proof.
  intros (phase & ex' & Hp & Hc)%passes_phase_filter_inv H.
  open_HandleEvent. rewrite Hp, H. cbv beta iota.
  rewrite (bool_decide_eq_false_2 (None ≠ None)) by (intros E; by apply E).
  by rewrite Hc.
Qed.

(** [HandleEvent] returns without reaching [insert2Queue], panics on a nil
    snapshot, or ends with [insert2Queue] on an event that satisfies the
    invariant on the flags. *)
Lemma HandleEvent_cases s obj oldObj action :
  (∃ r l, HandleEvent obj oldObj action s = Ok r (logged l s))
  ∨ (∃ r l, HandleEvent obj oldObj action s = Panic r (logged l s))
  ∨ (∃ e l, flags_ok e ∧ HandleEvent obj oldObj action s
                         = insert_and_return e (logged l s)).
Proof.
  destruct obj as [u|];
    [|right; left; eexists _, []; by rewrite logged_nil].
  destruct (NestedString (Object u) ["status"; "phase"])
    as [[phase ex] [er|]] eqn:Hphase.
  { left. eexists _, []. rewrite logged_nil. by eapply HandleEvent_phase_error. }
  destruct (passes_phase_filter u) eqn:Hp; last first.
  { unfold passes_phase_filter in Hp. rewrite Hphase in Hp.
    apply negb_false_iff, andb_true_iff in Hp as [-> Hne%bool_decide_eq_true].
    left. eexists _, _. by eapply HandleEvent_phase_rejected. }
  destruct (NestedString (Object u) ["status"; "podIP"])
    as [[podIP ex'] [er|]] eqn:Haddr.
  { left. eexists _, []. rewrite logged_nil. by eapply HandleEvent_address_error. }
  destruct (passes_address_filter u) eqn:Ha; last first.
  { unfold passes_address_filter in Ha. rewrite Haddr in Ha.
    apply negb_false_iff, andb_true_iff in Ha as [-> Hlen%bool_decide_eq_true].
    destruct podIP as [|a rest]; [|discriminate Hlen].
    left. eexists _, _. by eapply HandleEvent_address_rejected. }
  rewrite (HandleEvent_passes _ _ _ _ Hp Ha).
  unfold mbind, M_bind.
  destruct (switch_cases (logged [notification_entry u action] s) u oldObj action
              (candidate_event u) eq_refl)
    as [[l ->]|[[r ->]|(e & He & _ & _ & ->)]].
  - left. eexists _, _. by rewrite logged_logged.
  - right. left. eexists _, _. reflexivity.
  - right. right. exists e, [notification_entry u action]. by split.
Qed.

End Translator.

Section TranslatorClaims.
Context `{C : Collaborators}.

(** C5 (as amended).  For a notification with the action "update" that
    carries a previous snapshot and passes the phase and address filters: when
    the auto-attach marker of the current snapshot is present with its
    enabling value, [HandleEvent] ends with [insert2Queue] on an event with
    [AttachIP = true], and with [ShiedAdv = true] exactly when the
    advanced-shield marker is present with its enabling value; with room in
    the lane the event is appended to the lane queue. *)
Theorem update_with_marker s u old :
  passes_phase_filter u = true →
  passes_address_filter u = true →
  GetAnnotations u !! type_annotation = Some "auto" →
  let e := mkEvent (podIP_of u) (GetResourceVersion u) true
             (bool_decide (GetAnnotations u !! shield_annotation = Some "advanced")) in
  HandleEvent (Some u) (Some old) "update" s
  = insert_and_return e (logged [notification_entry u "update"] s)
  ∧ (lane_has_room e (hd s) →
     HandleEvent (Some u) (Some old) "update" s
     = Ok None (dispatched e [notification_entry u "update"] s)).
Proof.
  intros Hp Ha Hm%annotated_true e.
  assert (HandleEvent (Some u) (Some old) "update" s
          = insert_and_return e (logged [notification_entry u "update"] s)) as H.
  { rewrite (HandleEvent_passes _ _ _ _ Hp Ha). unfold mbind, M_bind.
    rewrite (switch_update_marked _ _ _ _ Hm). subst e.
    unfold shielded. rewrite annotated_bool_decide. simpl.
    by destruct (bool_decide _). }
  split; [done|]. intros Hr. rewrite H. by apply insert_and_return_enqueues.
Qed.

(** C6.  For an update that passes the filters and whose current snapshot
    lacks the enabling auto-attach marker: when the previous snapshot has it,
    [HandleEvent] ends with [insert2Queue] on an event with both flags false
    (appended to the lane queue when the lane has room); when the previous
    snapshot lacks it too, [HandleEvent] returns without an event, the queues
    untouched. *)
Theorem update_without_marker s u old :
  passes_phase_filter u = true →
  passes_address_filter u = true →
  GetAnnotations u !! type_annotation ≠ Some "auto" →
  let e := mkEvent (podIP_of u) (GetResourceVersion u) false false in
  (GetAnnotations old !! type_annotation = Some "auto" →
   HandleEvent (Some u) (Some old) "update" s
   = insert_and_return e (logged [notification_entry u "update"] s)
   ∧ (lane_has_room e (hd s) →
      HandleEvent (Some u) (Some old) "update" s
      = Ok None (dispatched e [notification_entry u "update"] s)))
  ∧ (GetAnnotations old !! type_annotation ≠ Some "auto" →
     HandleEvent (Some u) (Some old) "update" s
     = Ok None (logged [notification_entry u "update"; ignored_entry u old] s)).
Proof.
  intros Hp Ha Hm e.
  assert (marked u = false) as Hu.
  { apply not_true_is_false. unfold marked. by rewrite annotated_true. }
  rewrite (HandleEvent_passes _ _ _ _ Hp Ha). unfold mbind, M_bind.
  rewrite (switch_update_unmarked _ _ _ _ Hu).
  split.
  - intros Hold%annotated_true. unfold marked. rewrite Hold.
    split; [done|]. intros Hr. by apply insert_and_return_enqueues.
  - intros Hold. assert (marked old = false) as ->.
    { apply not_true_is_false. unfold marked. by rewrite annotated_true. }
    by rewrite logged_logged.
Qed.

(** C7.  For a notification with the action "delete" that passes the phase
    and address filters, [HandleEvent] ends with [insert2Queue] on an event
    with both flags false; with room in the lane the event is appended to the
    lane queue. *)
Theorem delete_forces_detach s u oldObj :
  passes_phase_filter u = true →
  passes_address_filter u = true →
  let e := mkEvent (podIP_of u) (GetResourceVersion u) false false in
  HandleEvent (Some u) oldObj "delete" s
  = insert_and_return e (logged [notification_entry u "delete"] s)
  ∧ (lane_has_room e (hd s) →
     HandleEvent (Some u) oldObj "delete" s
     = Ok None (dispatched e [notification_entry u "delete"] s)).
Proof.
  intros Hp Ha e.
  rewrite (HandleEvent_passes _ _ _ _ Hp Ha). unfold mbind, M_bind.
  rewrite switch_delete. split; [done|].
  intros Hr. by apply insert_and_return_enqueues.
Qed.

(** C8.  A snapshot whose phase is present and is not "Running" is dropped:
    [HandleEvent] returns nil after one Info entry, the handler untouched.
    A snapshot whose address is present and empty is dropped too: the handler
    is untouched, and when the phase filter let it through the return is nil
    after the entry "podIP is empty". *)
Theorem filtered_out s u oldObj action :
  (∀ phase,
     NestedString (Object u) ["status"; "phase"] = (phase, true, None) →
     phase ≠ "Running" →
     HandleEvent (Some u) oldObj action s
     = Ok None (logged [mkEntry InfoLevel ("phase: " +:+ phase) []] s))
  ∧ (NestedString (Object u) ["status"; "podIP"] = ("", true, None) →
     (∃ r l, HandleEvent (Some u) oldObj action s = Ok r (logged l s))
     ∧ (passes_phase_filter u = true →
        HandleEvent (Some u) oldObj action s
        = Ok None (logged [mkEntry InfoLevel "podIP is empty" []] s))).
Proof.
  split.
  - intros phase H Hne. by apply HandleEvent_phase_rejected.
  - intros H. split; [|intros Hp; by apply HandleEvent_address_rejected].
    destruct (NestedString (Object u) ["status"; "phase"])
      as [[phase ex] [er|]] eqn:Hphase.
    { eexists _, []. rewrite logged_nil. by eapply HandleEvent_phase_error. }
    destruct (passes_phase_filter u) eqn:Hp.
    + eexists _, _. by apply HandleEvent_address_rejected.
    + unfold passes_phase_filter in Hp. rewrite Hphase in Hp.
      apply negb_false_iff, andb_true_iff in Hp as [-> Hne%bool_decide_eq_true].
      eexists _, _. by eapply HandleEvent_phase_rejected.
Qed.

(** C9.  Whatever [HandleEvent] is given, the event it sends, if any,
    satisfies the invariant [AttachIP = false → ShiedAdv = false]: the result
    leaves the handler as it was, or appends one such event to a lane queue,
    or blocks on the send of one such event. *)
Theorem emitted_event_flags s obj oldObj action :
  match HandleEvent obj oldObj action s with
  | Ok _ s' =>
      hd s' = hd s
      ∨ ∃ lane q e, ProcessChannel (hd s) !! lane = Some q
                    ∧ hd s' = enqueue lane e (hd s)
                    ∧ flags_ok e
  | Panic _ s' => hd s' = hd s
  | Block _ e s' => hd s' = hd s ∧ flags_ok e
  end.
Proof.
  destruct (HandleEvent_cases s obj oldObj action)
    as [(r & l & ->)|[(r & l & ->)|(e & l & He & ->)]]; [by left|done|].
  unfold insert_and_return, mbind, M_bind.
  destruct (insert2Queue_cases e (logged l s))
    as [[r ->]|[[lane ->]|[(_ & _ & q & Hq & _) ->]]]; [done|done|].
  right. by exists (Z.to_nat (lane_hash e (hd s))), q, e.
Qed.


End TranslatorClaims.

(** Every lane of [Samples.three_lanes] is empty: there is room for any
    event whose lane index is not negative. *)
Ltac sample_lane_has_room :=
  split; [done|]; split; [by vm_compute|]; exists []; split; [reflexivity|];
  vm_compute; lia.

Lemma update_with_marker_witness :
  HandleEvent (C := Samples.succeeding) (Some Samples.shielded_pod)
    (Some Samples.annotated_pod) "update" (Samples.start Samples.succeeding tt)
  = insert_and_return Samples.e101
      (logged [notification_entry Samples.shielded_pod "update"]
              (Samples.start Samples.succeeding tt))
  ∧ HandleEvent (C := Samples.succeeding) (Some Samples.shielded_pod)
      (Some Samples.annotated_pod) "update" (Samples.start Samples.succeeding tt)
    = Ok None (dispatched Samples.e101 [notification_entry Samples.shielded_pod "update"]
                          (Samples.start Samples.succeeding tt)).
Proof.
  pose proof (update_with_marker (C := Samples.succeeding)
                (Samples.start Samples.succeeding tt)
                Samples.shielded_pod Samples.annotated_pod
                eq_refl eq_refl eq_refl) as [H1 H2].
  split; [exact H1|]. apply H2. sample_lane_has_room.
Defined.

(** A creation notification, with no previous snapshot: under the action
    "create" the marked pod yields an event with both flags false, and under
    the action "update" the nil previous snapshot is dereferenced. *)
Lemma create_with_marker_is_not_attached :
  passes_phase_filter Samples.annotated_pod = true
  ∧ passes_address_filter Samples.annotated_pod = true
  ∧ GetAnnotations Samples.annotated_pod !! type_annotation = Some "auto"
  ∧ HandleEvent (C := Samples.succeeding) (Some Samples.annotated_pod) None "create"
      (Samples.start Samples.succeeding tt)
    = Ok None (dispatched (mkEvent "10.0.0.5" "100" false false)
                          [notification_entry Samples.annotated_pod "create"]
                          (Samples.start Samples.succeeding tt))
  ∧ HandleEvent (C := Samples.succeeding) (Some Samples.annotated_pod) None "update"
      (Samples.start Samples.succeeding tt)
    = Panic "invalid memory address or nil pointer dereference"
            (logged [notification_entry Samples.annotated_pod "update"]
                    (Samples.start Samples.succeeding tt)).
Proof. repeat split; vm_compute; reflexivity. Qed.

Lemma update_without_marker_witness :
  HandleEvent (C := Samples.succeeding) (Some Samples.plain_pod)
    (Some Samples.annotated_pod) "update" (Samples.start Samples.succeeding tt)
  = Ok None (dispatched (mkEvent "10.0.0.5" "102" false false)
                        [notification_entry Samples.plain_pod "update"]
                        (Samples.start Samples.succeeding tt))
  ∧ HandleEvent (C := Samples.succeeding) (Some Samples.plain_pod)
      (Some Samples.plain_pod) "update" (Samples.start Samples.succeeding tt)
    = Ok None (logged [notification_entry Samples.plain_pod "update";
                       ignored_entry Samples.plain_pod Samples.plain_pod]
                      (Samples.start Samples.succeeding tt)).
Proof.
  split.
  - apply (proj1 (update_without_marker (C := Samples.succeeding)
                    (Samples.start Samples.succeeding tt)
                    Samples.plain_pod Samples.annotated_pod eq_refl eq_refl
                    ltac:(vm_compute; congruence)));
      [reflexivity | sample_lane_has_room].
  - apply (proj2 (update_without_marker (C := Samples.succeeding)
                    (Samples.start Samples.succeeding tt)
                    Samples.plain_pod Samples.plain_pod eq_refl eq_refl
                    ltac:(vm_compute; congruence))).
    vm_compute; congruence.
Defined.

Lemma delete_forces_detach_witness :
  HandleEvent (C := Samples.succeeding) (Some Samples.shielded_pod) None "delete"
    (Samples.start Samples.succeeding tt)
  = Ok None (dispatched (mkEvent "10.0.0.5" "101" false false)
                        [notification_entry Samples.shielded_pod "delete"]
                        (Samples.start Samples.succeeding tt)).
Proof.
  apply (delete_forces_detach (C := Samples.succeeding)
           (Samples.start Samples.succeeding tt) Samples.shielded_pod None
           eq_refl eq_refl).
  sample_lane_has_room.
Defined.

Lemma filtered_out_witness :
  HandleEvent (C := Samples.succeeding) (Some Samples.pending_pod) None "update"
    (Samples.start Samples.succeeding tt)
  = Ok None (logged [mkEntry InfoLevel "phase: Pending" []]
                    (Samples.start Samples.succeeding tt))
  ∧ HandleEvent (C := Samples.succeeding) (Some Samples.empty_address_pod) None "update"
      (Samples.start Samples.succeeding tt)
    = Ok None (logged [mkEntry InfoLevel "podIP is empty" []]
                      (Samples.start Samples.succeeding tt)).
Proof.
  split.
  - apply (proj1 (filtered_out (C := Samples.succeeding)
                    (Samples.start Samples.succeeding tt)
                    Samples.pending_pod None "update") "Pending");
      [reflexivity | vm_compute; congruence].
  - apply (proj2 (filtered_out (C := Samples.succeeding)
                    (Samples.start Samples.succeeding tt)
                    Samples.empty_address_pod None "update"));
      reflexivity.
Defined.



(** ** The example scenario of the design

    Identity 10.0.0.5 at version 100, phase Running, marked for an address,
    delivered as an update: the event goes to lane 2 of three, the worker
    calls the creation path once, and the same notification delivered again
    adds no call. *)
Example redelivered_update_is_reconciled_once :
  init 3 = Some Samples.three_lanes
  ∧ ∃ s', (HandleEvent (C := Samples.succeeding) (Some Samples.annotated_pod)
             (Some Samples.plain_pod) "update";;
           process 2;;
           HandleEvent (Some Samples.annotated_pod) (Some Samples.annotated_pod) "update";;
           process 2) (Samples.start Samples.succeeding tt) = Ok tt s'
          ∧ calls s' = [(None, Samples.e100)]
          ∧ lane_state 2 s' = Some {[ "10.0.0.5" := Samples.e100 ]}
          ∧ ProcessChannel (hd s') = [[]; []; []].
Proof.
  split; [reflexivity|].
  eexists. split; [vm_compute; reflexivity|].
  repeat split; vm_compute; reflexivity.
Qed.

(** * Further properties of the handler *)

(** ** The dispatcher: [init] and [insert2Queue] *)

Section DispatcherProperties.
Context `{C : Collaborators}.



(** [init] fails on a negative size only; otherwise the handler has
    [channelSize] lanes, each with an empty queue and an empty state map. *)
Lemma init_lanes (n : Z) :
  if bool_decide (n < 0) then init n = None
  else ∃ h, init n = Some h
            ∧ ChannelSize h = n
            ∧ length (ProcessChannel h) = Z.to_nat n
            ∧ length (EipStatusMap h) = Z.to_nat n
            ∧ ∀ i, (i < Z.to_nat n)%nat →
                   ProcessChannel h !! i = Some [] ∧ EipStatusMap h !! i = Some ∅.
Proof.
  unfold init. case_bool_decide as Hn; [done|].
  eexists. split; [done|]. simpl.
  rewrite !length_replicate. repeat split; by apply lookup_replicate_2.
Qed.


(** A converted hash that is negative and not a multiple of [ChannelSize]
    gives a negative index: [insert2Queue] panics, before any change. *)
Theorem insert2Queue_negative_hash e s :
  ChannelSize (hd s) ≠ 0 →
  int32 (PodIP2Int e) < 0 →
  Z.rem (int32 (PodIP2Int e)) (ChannelSize (hd s)) ≠ 0 →
  insert2Queue e s = Panic "index out of range" s.
Proof.
  intros Hn Ha Hr.
  assert (lane_hash e (hd s) < 0) as Hneg.
  { unfold lane_hash. pose proof (Z.rem_sign_nz _ _ Hn Hr) as Hs.
    destruct (Z.rem _ _) eqn:E; destruct (int32 _) eqn:E'; simpl in Hs; lia. }
  unfold insert2Queue, send, mbind, M_bind, get_hd, panic. simpl.
  rewrite (bool_decide_eq_false_2 _ Hn). fold (lane_hash e (hd s)).
  by rewrite (bool_decide_eq_true_2 _ Hneg).
Qed.

(** [init 0] succeeds, and on the handler it gives every [insert2Queue]
    divides by zero. *)
Theorem insert2Queue_without_lanes e s :
  init 0 = Some (hd s) →
  insert2Queue e s = Panic "integer divide by zero" s.
Proof.
  intros Hinit. unfold init in Hinit. simpl in Hinit.
  injection Hinit as Hh.
  unfold insert2Queue, mbind, M_bind, get_hd, panic. simpl.
  by rewrite <- Hh.
Qed.

(** A send to a lane whose queue holds [channel_capacity] events blocks:
    nothing is appended and nothing is logged. *)
Theorem insert2Queue_full_lane e s q :
  ChannelSize (hd s) ≠ 0 →
  0 ≤ lane_hash e (hd s) →
  ProcessChannel (hd s) !! Z.to_nat (lane_hash e (hd s)) = Some q →
  (channel_capacity ≤ length q)%nat →
  insert2Queue e s = Block (Z.to_nat (lane_hash e (hd s))) e s.
Proof.
  intros Hn H0 Hq Hfull.
  unfold insert2Queue, send, mbind, M_bind, get_hd, panic. simpl.
  rewrite (bool_decide_eq_false_2 _ Hn). fold (lane_hash e (hd s)).
  rewrite bool_decide_eq_false_2 by lia. rewrite Hq.
  by rewrite (bool_decide_eq_true_2 _ Hfull).
Qed.

(** A successful [insert2Queue] changes one queue only: the queue of the
    event's lane grows by the event at its tail; the other queues, the lane
    state maps, [ChannelSize], the external world and the calls made stay. *)
Theorem insert2Queue_frame e s s' :
  insert2Queue e s = Ok tt s' →
  ∃ q, ProcessChannel (hd s) !! Z.to_nat (lane_hash e (hd s)) = Some q
       ∧ ProcessChannel (hd s') !! Z.to_nat (lane_hash e (hd s)) = Some (q ++ [e])
       ∧ (∀ j, j ≠ Z.to_nat (lane_hash e (hd s)) →
               ProcessChannel (hd s') !! j = ProcessChannel (hd s) !! j)
       ∧ EipStatusMap (hd s') = EipStatusMap (hd s)
       ∧ ChannelSize (hd s') = ChannelSize (hd s)
       ∧ world s' = world s
       ∧ calls s' = calls s.
Proof.
  intros H.
  destruct (insert2Queue_cases e s) as [[r Hr]|[[lane Hb]|[Hroom Hok]]];
    [congruence..|].
  rewrite Hok in H. injection H as <-.
  destruct Hroom as (_ & _ & q & Hq & _).
  exists q. split; [done|]. simpl.
  split; [by rewrite list_lookup_alter_eq, Hq|].
  split; [|done]. intros j Hj. by rewrite list_lookup_alter_ne.
Qed.

(** Two events with the same [PodIP2Int] go to the same lane and sit there
    in the order of submission. *)
Theorem insert2Queue_keeps_order e1 e2 s q :
  PodIP2Int e1 = PodIP2Int e2 →
  ChannelSize (hd s) ≠ 0 →
  0 ≤ lane_hash e1 (hd s) →
  ProcessChannel (hd s) !! Z.to_nat (lane_hash e1 (hd s)) = Some q →
  (S (length q) < channel_capacity)%nat →
  ∃ s', (insert2Queue e1;; insert2Queue e2) s = Ok tt s'
        ∧ ProcessChannel (hd s') !! Z.to_nat (lane_hash e1 (hd s)) = Some (q ++ [e1; e2]).
Proof.
  intros Heq Hn H0 Hq Hlen.
  assert (∀ h, lane_hash e2 h = lane_hash e1 h) as Hlane.
  { intros h. unfold lane_hash. by rewrite Heq. }
  unfold mbind, M_bind.
  rewrite insert2Queue_enqueues; last first.
  { split; [done|]. split; [done|]. exists q. split; [done|lia]. }
  set (s1 := logged _ _).
  assert (ProcessChannel (hd s1) !! Z.to_nat (lane_hash e1 (hd s)) = Some (q ++ [e1]))
    as Hq1.
  { subst s1. simpl. by rewrite list_lookup_alter_eq, Hq. }
  assert (lane_hash e2 (hd s1) = lane_hash e1 (hd s)) as Hl2.
  { by rewrite Hlane. }
  assert (ChannelSize (hd s1) ≠ 0) as Hn1 by done.
  clearbody s1.
  rewrite insert2Queue_enqueues; last first.
  { unfold lane_has_room. rewrite Hl2. split; [done|]. split; [done|].
    exists (q ++ [e1]). split; [done|]. rewrite length_app. simpl. lia. }
  eexists. split; [done|]. simpl. rewrite Hl2.
  rewrite list_lookup_alter_eq, Hq1. simpl. by rewrite <- app_assoc.
Qed.

End DispatcherProperties.

(** ** The worker: [process] *)

Section WorkerProperties.
Context `{C : Collaborators}.

Lemma lane_state_set_status_ne i j k e h :
  j ≠ i → EipStatusMap (set_status i k e h) !! j = EipStatusMap h !! j.
Proof. intros Hj. simpl. by rewrite list_lookup_alter_ne. Qed.

(** One turn of the loop, in one statement: what it may change. *)
Lemma process_event_step s i e m :
  lane_state i s = Some m →
  ∃ s' m', process_event i e s = Ok tt s'
           ∧ lane_state i s' = Some m'
           ∧ (m' = m ∨ m' = <[PodIP e := e]> m)
           ∧ (∀ j, j ≠ i → lane_state j s' = lane_state j s)
           ∧ ProcessChannel (hd s') = ProcessChannel (hd s)
           ∧ ChannelSize (hd s') = ChannelSize (hd s)
           ∧ (calls s' = calls s ∨ calls s' = calls s ++ [(m !! PodIP e, e)])
           ∧ match m' !! PodIP e with
             | Some v => ResourceVersion v = ResourceVersion e
             | None => m !! PodIP e = None
                       ∧ (Process e None (world s)).2 ≠ None
             end.
Proof.
  intros Hm.
  destruct (m !! PodIP e) as [val|] eqn:Hval.
  - destruct (decide (ResourceVersion val = ResourceVersion e)) as [Hrv|Hrv].
    + rewrite (process_event_duplicate _ _ _ _ _ Hm Hval Hrv).
      exists (with_logs (λ l, l ++ [received_entry e;
                                     mkEntry InfoLevel "same resource version" []]) s), m.
      repeat split; try done; [by left|by left|by rewrite Hval].
    + rewrite (process_event_transition _ _ _ _ _ Hm Hval Hrv).
      eexists _, (<[PodIP e := e]> m).
      split; [done|]. split; [by apply lane_state_set_status|].
      split; [by right|].
      split; [intros j Hj; by apply lane_state_set_status_ne|].
      split; [done|]. split; [done|]. split; [by right|].
      by rewrite lookup_insert_eq.
  - rewrite (process_event_creation _ _ _ _ Hm Hval).
    destruct (Process e None (world s)) as [w [er|]] eqn:HP.
    + eexists _, m. split; [done|]. split; [done|]. split; [by left|].
      split; [done|]. split; [done|]. split; [done|]. split; [by right|].
      by rewrite Hval.
    + eexists _, (<[PodIP e := e]> m).
      split; [done|]. split; [by apply lane_state_set_status|].
      split; [by right|].
      split; [intros j Hj; by apply lane_state_set_status_ne|].
      split; [done|]. split; [done|]. split; [by right|].
      by rewrite lookup_insert_eq.
Qed.

(** One turn of the loop for [e] on lane [i] leaves alone the queues, the
    state maps of the other lanes, and in its own state map the entries of the
    identities other than that of [e]. *)
Theorem process_event_frame s i e m :
  lane_state i s = Some m →
  ∃ s' m', process_event i e s = Ok tt s'
           ∧ lane_state i s' = Some m'
           ∧ (∀ k, k ≠ PodIP e → m' !! k = m !! k)
           ∧ (∀ j, j ≠ i → lane_state j s' = lane_state j s)
           ∧ ProcessChannel (hd s') = ProcessChannel (hd s).
Proof.
  intros Hm.
  destruct (process_event_step s i e m Hm)
    as (s' & m' & Hrun & Hm' & Hcase & Hother & Hq & _).
  exists s', m'. repeat split; try done.
  intros k Hk. destruct Hcase as [->| ->]; [done|].
  by rewrite lookup_insert_ne.
Qed.

(** After one turn of the loop for [e], the lane holds an entry of the
    version of [e] for its identity, unless the identity was unknown and the
    creation call failed, in which case it is still unknown. *)
Theorem process_event_records_version s i e m :
  lane_state i s = Some m →
  ∃ s' m', process_event i e s = Ok tt s'
           ∧ lane_state i s' = Some m'
           ∧ match m' !! PodIP e with
             | Some v => ResourceVersion v = ResourceVersion e
             | None => m !! PodIP e = None
                       ∧ (Process e None (world s)).2 ≠ None
             end.
Proof.
  intros Hm.
  destruct (process_event_step s i e m Hm)
    as (s' & m' & Hrun & Hm' & _ & _ & _ & _ & _ & Hpost).
  by exists s', m'.
Qed.

(** What a batch of events does to its lane, by induction on the batch. *)
Lemma process_events_step es : ∀ s i m,
  lane_state i s = Some m →
  ∃ s' m' cs,
    process_events i es s = Ok tt s'
    ∧ lane_state i s' = Some m'
    ∧ (∀ j, j ≠ i → lane_state j s' = lane_state j s)
    ∧ ProcessChannel (hd s') = alter (drop (length es)) i (ProcessChannel (hd s))
    ∧ ChannelSize (hd s') = ChannelSize (hd s)
    ∧ dom m ⊆ dom m'
    ∧ (keyed m → keyed m')
    ∧ (∀ k, (∀ e, e ∈ es → PodIP e ≠ k) → m' !! k = m !! k)
    ∧ (∀ k v, m' !! k = Some v → m !! k = Some v ∨ (v ∈ es ∧ PodIP v = k))
    ∧ calls s' = calls s ++ cs
    ∧ sublist (snd <$> cs) es.
Proof.
  induction es as [|e es IH]; intros s i m Hm.
  - exists s, m, []. simpl.
    split; [done|]. split; [done|]. split; [done|].
    split.
    { apply list_eq. intros j. rewrite list_lookup_alter.
      case_decide; [subst j|done]. by destruct (ProcessChannel (hd s) !! i). }
    split; [done|]. split; [done|]. split; [done|]. split; [done|].
    split; [by left|].
    split; [by rewrite app_nil_r|]. constructor.
  - simpl. unfold mbind, M_bind, modify_hd.
    set (s0 := with_hd (pop_channel i) s).
    assert (lane_state i s0 = Some m) as Hm0 by done.
    destruct (process_event_step s0 i e m Hm0)
      as (s1 & m1 & -> & Hm1 & Hcase & Hother1 & Hq1 & Hn1 & Hcalls1 & _).
    destruct (IH s1 i m1 Hm1)
      as (s' & m' & cs & -> & Hm' & Hother & Hq & Hn & Hdom & Hkeyed & Hkeep & Hfrom
          & Hcalls & Hsub).
    assert (∃ cs', calls s' = calls s ++ cs' ∧ sublist (snd <$> cs') (e :: es))
      as (cs' & Hcalls' & Hsub').
    { destruct Hcalls1 as [Hc|Hc].
      - exists cs. split; [by rewrite Hcalls, Hc|]. by apply sublist_cons.
      - exists ((m !! PodIP e, e) :: cs).
        split; [by rewrite Hcalls, Hc, <- app_assoc|].
        simpl. by apply sublist_skip. }
    clear Hcalls1 Hcalls Hsub.
    exists s', m', cs'.
    split; [done|]. split; [done|].
    split. { intros j Hj. rewrite Hother by done. by rewrite Hother1. }
    split.
    { rewrite Hq, Hq1. subst s0. simpl.
      apply list_eq. intros j. rewrite !list_lookup_alter.
      rewrite (decide_True (P := i = i)) by done.
      case_decide; [subst j|done].
      destruct (ProcessChannel (hd s) !! i) as [q|]; [|done]. simpl.
      by rewrite drop_drop. }
    split. { by rewrite Hn, Hn1. }
    split.
    { etrans; [|exact Hdom]. destruct Hcase as [E|E]; subst m1; [done|].
      rewrite dom_insert_L. set_solver. }
    split.
    { intros Hk. apply Hkeyed. destruct Hcase as [E|E]; subst m1; [done|].
      by apply map_Forall_insert_2. }
    split.
    { intros k Hk. rewrite Hkeep; last first.
      { intros e' He'. apply Hk. by right. }
      destruct Hcase as [E|E]; subst m1; [done|].
      rewrite lookup_insert_ne; [done|]. apply Hk. by left. }
    split; [|done].
    intros k v Hv. destruct (Hfrom k v Hv) as [H1|[Hin Hk]].
    + destruct Hcase as [E|E]; subst m1; [by left|].
      destruct (decide (PodIP e = k)) as [<-|Hne].
      * rewrite lookup_insert_eq in H1. injection H1 as <-.
        right. split; [by left|done].
      * rewrite lookup_insert_ne in H1 by done. by left.
    + right. split; [by right|done].
Qed.

(** A batch handled in two parts. *)
Lemma process_events_app es1 es2 i s :
  process_events i (es1 ++ es2) s
  = (process_events i es1;; process_events i es2) s.
Proof.
  revert s. induction es1 as [|e es1 IH]; intros s; [done|].
  simpl. unfold mbind, M_bind, modify_hd.
  destruct (process_event i e _) as [[] s1|r s1|lane e' s1]; [|done..].
  rewrite IH. done.
Qed.

(** A worker on an existing lane handles every queued event and leaves its
    queue empty; the other queues and the state maps of the other lanes are
    as before. *)
Theorem process_drains_lane s i q m :
  ProcessChannel (hd s) !! i = Some q →
  lane_state i s = Some m →
  ∃ s', process i s = Ok tt s'
        ∧ ProcessChannel (hd s') !! i = Some []
        ∧ (∀ j, j ≠ i → ProcessChannel (hd s') !! j = ProcessChannel (hd s) !! j)
        ∧ (∀ j, j ≠ i → lane_state j s' = lane_state j s).
Proof.
  intros Hq Hm.
  unfold process, mbind, M_bind, get_hd. rewrite Hq.
  destruct (process_events_step q s i m Hm)
    as (s' & m' & cs & -> & _ & Hother & Hqs & _).
  exists s'. split; [done|]. rewrite Hqs.
  split. { rewrite list_lookup_alter_eq, Hq. simpl. by rewrite drop_all. }
  split; [|done]. intros j Hj. by rewrite list_lookup_alter_ne.
Qed.

(** The worker calls the boundary only with events it received, in the order
    it received them and at most once for each. *)
Theorem process_calls_are_received s i q m :
  ProcessChannel (hd s) !! i = Some q →
  lane_state i s = Some m →
  ∃ s' cs, process i s = Ok tt s'
           ∧ calls s' = calls s ++ cs
           ∧ sublist (snd <$> cs) q.
Proof.
  intros Hq Hm.
  unfold process, mbind, M_bind, get_hd. rewrite Hq.
  destruct (process_events_step q s i m Hm)
    as (s' & m' & cs & -> & _ & _ & _ & _ & _ & _ & _ & _ & Hcalls & Hsub).
  by exists s', cs.
Qed.


(** The worker stores received events only, each under its own identity:
    an entry of the state map afterwards was there before, or is one of the
    received events and sits under its [PodIP]; a map whose entries all sit
    under their identity stays so. *)
Theorem process_stores_received s i q m :
  ProcessChannel (hd s) !! i = Some q →
  lane_state i s = Some m →
  ∃ s' m', process i s = Ok tt s'
           ∧ lane_state i s' = Some m'
           ∧ (∀ k v, m' !! k = Some v → m !! k = Some v ∨ (v ∈ q ∧ PodIP v = k))
           ∧ (keyed m → keyed m').
Proof.
  intros Hq Hm.
  unfold process, mbind, M_bind, get_hd. rewrite Hq.
  destruct (process_events_step q s i m Hm)
    as (s' & m' & cs & -> & Hm' & _ & _ & _ & _ & Hkeyed & _ & Hfrom & _).
  by exists s', m'.
Qed.

(** Two deliveries of the same event with events of other identities in
    between: once the first delivery is recorded, the second makes no call, so
    the boundary sees the event once; the calls in between are for the other
    events. *)
Theorem duplicate_suppression_interleaved s i e others m :
  lane_state i s = Some m →
  first_is_recorded m e s →
  (∀ o, o ∈ others → PodIP o ≠ PodIP e) →
  ∃ s' cs, process_events i (e :: others ++ [e]) s = Ok tt s'
           ∧ calls s' = calls s ++ (m !! PodIP e, e) :: cs
           ∧ sublist (snd <$> cs) others
           ∧ ∃ m', lane_state i s' = Some m' ∧ m' !! PodIP e = Some e.
Proof.
  intros Hm Hrec Hothers.
  change (e :: others ++ [e]) with ([e] ++ (others ++ [e])).
  rewrite process_events_app. unfold mbind at 1. unfold M_bind.
  simpl. unfold mbind, M_bind, modify_hd, mret, M_ret.
  set (s0 := with_hd (pop_channel i) s).
  assert (lane_state i s0 = Some m) as Hm0 by done.
  assert (∃ s1, process_event i e s0 = Ok tt s1
                ∧ lane_state i s1 = Some (<[PodIP e := e]> m)
                ∧ calls s1 = calls s ++ [(m !! PodIP e, e)]) as (s1 & -> & Hm1 & Hc1).
  { unfold first_is_recorded in Hrec.
    destruct (m !! PodIP e) as [val|] eqn:Hval.
    - rewrite (process_event_transition _ _ _ _ _ Hm0 Hval Hrec).
      eexists. split; [done|]. split; [|done]. by apply lane_state_set_status.
    - rewrite (process_event_creation _ _ _ _ Hm0 Hval).
      change (world s0) with (world s).
      destruct (Process e None (world s)) as [w [er|]]; [done|].
      eexists. split; [done|]. split; [|done]. by apply lane_state_set_status. }
  rewrite process_events_app. unfold mbind, M_bind.
  destruct (process_events_step others s1 i _ Hm1)
    as (s2 & m2 & cs & -> & Hm2 & _ & _ & _ & _ & _ & Hkeep & _ & Hc2 & Hsub).
  assert (m2 !! PodIP e = Some e) as Hm2e.
  { rewrite Hkeep by done. apply lookup_insert_eq. }
  simpl. unfold mbind, M_bind, modify_hd, mret, M_ret.
  assert (lane_state i (with_hd (pop_channel i) s2) = Some m2) as Hm2' by done.
  rewrite (process_event_duplicate _ _ _ _ _ Hm2' Hm2e eq_refl).
  eexists _, cs. split; [done|]. simpl.
  split; [by rewrite Hc2, Hc1, <- app_assoc|].
  split; [done|]. by exists m2.
Qed.

End WorkerProperties.

(** ** The translator: [HandleEvent] *)

Section TranslatorProperties.
Context `{C : Collaborators}.

(** A snapshot stopped by a filter: [HandleEvent] returns with the handler
    as it was. *)
Lemma HandleEvent_stopped s u oldObj action :
  passes_phase_filter u && passes_address_filter u = false →
  ∃ r l, HandleEvent (Some u) oldObj action s = Ok r (logged l s).
Proof.
  intros Hf.
  destruct (NestedString (Object u) ["status"; "phase"])
    as [[phase ex] [er|]] eqn:Hphase.
  { eexists _, []. rewrite logged_nil. by eapply HandleEvent_phase_error. }
  destruct (passes_phase_filter u) eqn:Hp; last first.
  { unfold passes_phase_filter in Hp. rewrite Hphase in Hp.
    apply negb_false_iff, andb_true_iff in Hp as [-> Hne%bool_decide_eq_true].
    eexists _, _. by eapply HandleEvent_phase_rejected. }
  simpl in Hf.
  destruct (NestedString (Object u) ["status"; "podIP"])
    as [[podIP ex'] [er|]] eqn:Haddr.
  { eexists _, []. rewrite logged_nil. by eapply HandleEvent_address_error. }
  unfold passes_address_filter in Hf. rewrite Haddr in Hf.
  apply negb_false_iff, andb_true_iff in Hf as [-> Hlen%bool_decide_eq_true].
  destruct podIP as [|a rest]; [|discriminate Hlen].
  eexists _, _. by eapply HandleEvent_address_rejected.
Qed.

(** [HandleEvent] never calls the reconciliation boundary and never touches
    the lane state maps: however it ends, the external world, the calls made,
    the state maps and [ChannelSize] are as before, and the log has only
    grown. *)
Theorem HandleEvent_frame s obj oldObj action :
  let s' := final_state (HandleEvent obj oldObj action s) in
  world s' = world s
  ∧ calls s' = calls s
  ∧ EipStatusMap (hd s') = EipStatusMap (hd s)
  ∧ ChannelSize (hd s') = ChannelSize (hd s)
  ∧ ∃ l, logs s' = logs s ++ l.
Proof.
  destruct (HandleEvent_cases s obj oldObj action)
    as [(r & l & ->)|[(r & l & ->)|(e & l & He & ->)]]; simpl.
  - repeat split; eauto.
  - repeat split; eauto.
  - unfold insert_and_return, mbind, M_bind.
    destruct (insert2Queue_cases e (logged l s))
      as [[r ->]|[[lane ->]|[_ ->]]]; simpl.
    + repeat split; eauto.
    + repeat split; eauto.
    + repeat split; try done. rewrite <- app_assoc. eauto.
Qed.

(** An event that [HandleEvent] appends to a queue carries the address and
    the version of the current snapshot, which passed both filters; its
    identity is empty only when the snapshot has no address field. *)
Theorem enqueued_event_comes_from_snapshot s u oldObj action r s' :
  HandleEvent (Some u) oldObj action s = Ok r s' →
  hd s' ≠ hd s →
  ∃ e, hd s' = enqueue (Z.to_nat (lane_hash e (hd s))) e (hd s)
       ∧ PodIP e = podIP_of u
       ∧ ResourceVersion e = GetResourceVersion u
       ∧ r = None
       ∧ passes_phase_filter u = true
       ∧ passes_address_filter u = true
       ∧ (PodIP e = "" →
          NestedString (Object u) ["status"; "podIP"] = ("", false, None)).
Proof.
  intros Hrun Hchanged.
  destruct (passes_phase_filter u && passes_address_filter u) eqn:Hf.
  2:{ destruct (HandleEvent_stopped s u oldObj action Hf) as (r' & l & Hstop).
      rewrite Hstop in Hrun. injection Hrun as <- <-. done. }
  apply andb_true_iff in Hf as [Hp Ha].
  rewrite (HandleEvent_passes _ _ _ _ Hp Ha) in Hrun. unfold mbind, M_bind in Hrun.
  destruct (switch_cases (logged [notification_entry u action] s) u oldObj action
              (candidate_event u) eq_refl)
    as [[l Hsw]|[[r' Hsw]|(e & _ & Hip & Hrv & Hsw)]];
    rewrite Hsw in Hrun.
  - injection Hrun as <- <-. done.
  - done.
  - unfold insert_and_return, mbind, M_bind in Hrun.
    destruct (insert2Queue_cases e (logged [notification_entry u action] s))
      as [[r' Hq]|[[lane Hq]|[_ Hq]]]; rewrite Hq in Hrun; [done..|].
    injection Hrun as <- <-.
    exists e. repeat split; try done.
    intros Hempty. rewrite Hip in Hempty. simpl in Hempty.
    unfold passes_address_filter in Ha. unfold podIP_of in Hempty.
    destruct (NestedString (Object u) ["status"; "podIP"]) as [[podIP ex] [er|]];
      [done|].
    simpl in Hempty. subst podIP. by destruct ex.
Qed.

(** An action other than "update" and "delete" is not inspected further: the
    candidate event, both flags false, is inserted whatever the annotations
    and whether or not a previous snapshot is given. *)
Theorem other_action_inserts_candidate s u oldObj action :
  action ≠ "update" →
  action ≠ "delete" →
  passes_phase_filter u = true →
  passes_address_filter u = true →
  HandleEvent (Some u) oldObj action s
  = insert_and_return (mkEvent (podIP_of u) (GetResourceVersion u) false false)
                      (logged [notification_entry u action] s).
Proof.
  intros Hu Hd Hp Ha.
  rewrite (HandleEvent_passes _ _ _ _ Hp Ha). unfold mbind, M_bind.
  by rewrite switch_other.
Qed.

(** [HandleEvent] dereferences its snapshots: a nil current snapshot panics
    at once, and an "update" with a nil previous snapshot panics once the
    current one has passed the filters, after the notification is logged and
    before anything is inserted. *)
Theorem nil_snapshot_panics s u oldObj action :
  HandleEvent None oldObj action s
  = Panic "invalid memory address or nil pointer dereference" s
  ∧ (passes_phase_filter u = true →
     passes_address_filter u = true →
     HandleEvent (Some u) None "update" s
     = Panic "invalid memory address or nil pointer dereference"
             (logged [notification_entry u "update"] s)).
Proof.
  split; [done|]. intros Hp Ha.
  rewrite (HandleEvent_passes _ _ _ _ Hp Ha). unfold mbind, M_bind.
  by rewrite switch_update_nil.
Qed.

Lemma NestedString_bad_status (obj : gmap string value) v field :
  obj !! "status" = Some v →
  match v with VMap _ | VNil => False | _ => True end →
  ∃ er, NestedString obj ["status"; field] = ("", false, Some er).
Proof.
  intros Hv Hbad. unfold NestedString, NestedFieldNoCopy. simpl.
  rewrite Hv. destruct v; try done; by eexists.
Qed.

Lemma NestedString_bad_field (obj st : gmap string value) v field :
  obj !! "status" = Some (VMap st) →
  st !! field = Some v →
  as_string v = None →
  ∃ er, NestedString obj ["status"; field] = ("", false, Some er).
Proof.
  intros Hst Hv Hbad. unfold NestedString, NestedFieldNoCopy. simpl.
  rewrite Hst, Hv. destruct v; try done; by eexists.
Qed.

(** A snapshot whose status is neither an object nor null, or whose phase is
    not a string, is answered with an error: [HandleEvent] returns it to its
    caller, with nothing logged and nothing inserted. *)
Theorem malformed_status_is_returned s u oldObj action :
  (∀ v, Object u !! "status" = Some v →
        match v with VMap _ | VNil => False | _ => True end →
        ∃ er, HandleEvent (Some u) oldObj action s = Ok (Some er) s)
  ∧ (∀ st v, Object u !! "status" = Some (VMap st) →
             st !! "phase" = Some v →
             as_string v = None →
             ∃ er, HandleEvent (Some u) oldObj action s = Ok (Some er) s).
Proof.
  split.
  - intros v Hv Hbad.
    destruct (NestedString_bad_status _ _ "phase" Hv Hbad) as [er Her].
    exists er. by eapply HandleEvent_phase_error.
  - intros st v Hst Hv Hbad.
    destruct (NestedString_bad_field _ _ _ "phase" Hst Hv Hbad) as [er Her].
    exists er. by eapply HandleEvent_phase_error.
Qed.

End TranslatorProperties.

(** ** Notification to reconciliation: [HandleEvent] followed by [process] *)

Section Pipeline.
Context `{C : Collaborators}.

(** The worker of the lane an event was just sent to, the queue having been
    empty: it runs one turn of its loop, for that event. *)
Lemma process_after_dispatch e l s :
  ProcessChannel (hd s) !! Z.to_nat (lane_hash e (hd s)) = Some [] →
  ∃ s1, process (Z.to_nat (lane_hash e (hd s))) (dispatched e l s)
        = (process_event (Z.to_nat (lane_hash e (hd s))) e;; mret tt) s1
        ∧ EipStatusMap (hd s1) = EipStatusMap (hd s)
        ∧ ProcessChannel (hd s1) !! Z.to_nat (lane_hash e (hd s)) = Some []
        ∧ calls s1 = calls s
        ∧ world s1 = world s.
Proof.
  intros Hq.
  exists (with_hd (pop_channel (Z.to_nat (lane_hash e (hd s)))) (dispatched e l s)).
  split.
  - unfold process, mbind, M_bind, get_hd. simpl.
    rewrite list_lookup_alter_eq, Hq. done.
  - simpl. repeat split; try done.
    by rewrite !list_lookup_alter_eq, Hq.
Qed.

(** A "delete" for an identity the lane knows at another version reaches the
    boundary as a transition, with the known entry as the previous event and
    both flags of the new event false; the new event replaces the entry and
    the queue is empty again. *)
Theorem delete_of_known_identity_is_a_transition s u oldObj m prev :
  passes_phase_filter u = true →
  passes_address_filter u = true →
  let e := mkEvent (podIP_of u) (GetResourceVersion u) false false in
  let lane := Z.to_nat (lane_hash e (hd s)) in
  ChannelSize (hd s) ≠ 0 →
  0 ≤ lane_hash e (hd s) →
  ProcessChannel (hd s) !! lane = Some [] →
  lane_state lane s = Some m →
  m !! podIP_of u = Some prev →
  ResourceVersion prev ≠ GetResourceVersion u →
  ∃ s', (HandleEvent (Some u) oldObj "delete";; process lane) s = Ok tt s'
        ∧ calls s' = calls s ++ [(Some prev, e)]
        ∧ lane_state lane s' = Some (<[podIP_of u := e]> m)
        ∧ ProcessChannel (hd s') !! lane = Some [].
Proof.
  intros Hp Ha e lane Hn H0 Hq Hm Hprev Hrv.
  unfold mbind at 1. unfold M_bind.
  rewrite (HandleEvent_passes _ _ _ _ Hp Ha). unfold mbind at 1. unfold M_bind.
  rewrite switch_delete.
  change (mkEvent (PodIP (candidate_event u)) (ResourceVersion (candidate_event u))
                  false false) with e.
  subst lane.
  rewrite insert_and_return_enqueues; last first.
  { split; [done|]. split; [done|]. exists []. split; [done|].
    unfold channel_capacity. simpl. lia. }
  cbv beta iota.
  destruct (process_after_dispatch e [notification_entry u "delete"] s Hq)
    as (s1 & -> & Hmaps & Hq1 & Hc1 & Hw1).
  assert (lane_state (Z.to_nat (lane_hash e (hd s))) s1 = Some m) as Hm1.
  { unfold lane_state in *. by rewrite Hmaps. }
  unfold mbind, M_bind.
  rewrite (process_event_transition s1 _ e m prev Hm1 Hprev Hrv).
  eexists. split; [done|]. cbn [calls hd]. rewrite Hc1. split; [done|].
  split; [by apply lane_state_set_status|]. done.
Qed.

(** A "delete" whose snapshot carries the version the lane already holds for
    the identity is taken for a duplicate: the worker makes no call and keeps
    the entry, flags included. *)
Theorem delete_at_known_version_is_dropped s u oldObj m prev :
  passes_phase_filter u = true →
  passes_address_filter u = true →
  let e := mkEvent (podIP_of u) (GetResourceVersion u) false false in
  let lane := Z.to_nat (lane_hash e (hd s)) in
  ChannelSize (hd s) ≠ 0 →
  0 ≤ lane_hash e (hd s) →
  ProcessChannel (hd s) !! lane = Some [] →
  lane_state lane s = Some m →
  m !! podIP_of u = Some prev →
  ResourceVersion prev = GetResourceVersion u →
  ∃ s', (HandleEvent (Some u) oldObj "delete";; process lane) s = Ok tt s'
        ∧ calls s' = calls s
        ∧ world s' = world s
        ∧ lane_state lane s' = Some m.
Proof.
  intros Hp Ha e lane Hn H0 Hq Hm Hprev Hrv.
  unfold mbind at 1. unfold M_bind.
  rewrite (HandleEvent_passes _ _ _ _ Hp Ha). unfold mbind at 1. unfold M_bind.
  rewrite switch_delete.
  change (mkEvent (PodIP (candidate_event u)) (ResourceVersion (candidate_event u))
                  false false) with e.
  subst lane.
  rewrite insert_and_return_enqueues; last first.
  { split; [done|]. split; [done|]. exists []. split; [done|].
    unfold channel_capacity. simpl. lia. }
  cbv beta iota.
  destruct (process_after_dispatch e [notification_entry u "delete"] s Hq)
    as (s1 & -> & Hmaps & Hq1 & Hc1 & Hw1).
  assert (lane_state (Z.to_nat (lane_hash e (hd s))) s1 = Some m) as Hm1.
  { unfold lane_state in *. by rewrite Hmaps. }
  unfold mbind, M_bind.
  rewrite (process_event_duplicate s1 _ e m prev Hm1 Hprev Hrv).
  eexists. split; [done|]. by cbn [calls world hd with_logs lane_state].
Qed.

End Pipeline.

(** ** Start-up: [getInfo] and [NewHandler] *)

Section StartupProperties.
Context `{B : Bootstrap}.

(** [first_line s] is the part of [s] before its first newline: it has no
    newline, and [s] continues after it with a newline or not at all. *)
Theorem first_line_splits (s : string) :
  ∃ rest, s = first_line s +:+ rest
          ∧ (rest = "" ∨ ∃ rest', rest = String "010" rest')
          ∧ ∀ a b, first_line s ≠ a +:+ String "010" b.
Proof.
  induction s as [|c s (rest & Hs & Hrest & Hnl)]; simpl.
  - exists "". split; [done|]. split; [by left|]. by intros [|??] ?.
  - destruct (Ascii.eqb c "010") eqn:Hc.
    + apply Ascii.eqb_eq in Hc as ->. exists (String "010" s).
      split; [done|]. split; [right; eauto|]. by intros [|??] ?.
    + exists rest.
      split; [change (String c s = String c (first_line s +:+ rest)); by f_equal|].
      split; [done|].
      intros [|a0 a] b; simpl; intros E.
      * injection E as -> _. by rewrite Ascii.eqb_refl in Hc.
      * injection E as _ E. by eapply Hnl.
Qed.

(** When the three documents arrive, [getInfo] answers with the body of the
    VPC request and the region of the identity document, after four requests:
    the interface listing, the VPC identifier of the first listed interface
    twice, and the identity document.  The answer to the first of the two VPC
    requests plays no part. *)
Theorem getInfo_success b macs vpc document :
  http_Get (requests b) macs_url = GotBody macs None →
  http_Get (requests b ++ [macs_url; vpc_id_url macs]) (vpc_id_url macs)
    = GotBody vpc None →
  http_Get (requests b ++ [macs_url; vpc_id_url macs; vpc_id_url macs]) document_url
    = GotBody document None →
  getInfo b
  = (vpc, gjson_region document, None,
     mkBootState
       (requests b ++ [macs_url; vpc_id_url macs; vpc_id_url macs; document_url])
       (boot_logs b ++ [mkEntry InfoLevel "get info from imds"
                          [("vpcid", FString vpc);
                           ("region", FString (gjson_region document))]])).
Proof.
  intros H1 H2 H3. unfold getInfo, client_Get. simpl.
  rewrite H1. fold (vpc_id_url macs). simpl.
  rewrite <- !app_assoc. simpl. by rewrite H2, H3.
Qed.

(** [getInfo] reports either an error or a region, never both: with an error
    the region is empty and nothing was logged; without one it made exactly
    four requests. *)
Theorem getInfo_outcomes b :
  let '(vpcid, region, err, b') := getInfo b in
  match err with
  | Some _ => region = "" ∧ boot_logs b' = boot_logs b
              ∧ ∃ sent, requests b' = requests b ++ sent
                        ∧ (1 ≤ length sent ≤ 4)%nat
  | None => ∃ sent, requests b' = requests b ++ sent ∧ length sent = 4%nat
  end.
Proof.
  unfold getInfo, client_Get. simpl.
  destruct (http_Get (requests b) macs_url) as [er|macs [er|]].
  - repeat split; try done. exists [macs_url]. split; [done|simpl; lia].
  - repeat split; try done. exists [macs_url]. split; [done|simpl; lia].
  - destruct (http_Get _ _) as [er|vpc [er|]].
    + repeat split; try done. eexists [_; _; _].
      split; [by rewrite <- !app_assoc|simpl; lia].
    + repeat split; try done. eexists [_; _; _].
      split; [by rewrite <- !app_assoc|simpl; lia].
    + destruct (http_Get _ _) as [er|document [er|]].
      * repeat split; try done. eexists [_; _; _; _].
        split; [by rewrite <- !app_assoc|simpl; lia].
      * repeat split; try done. eexists [_; _; _; _].
        split; [by rewrite <- !app_assoc|simpl; lia].
      * eexists [_; _; _; _]. split; [by rewrite <- !app_assoc|done].
Qed.

(** With both identifiers given, [NewHandler] sends no request; with one of
    them empty it takes both from [getInfo], the one given included, and gives
    up with the error of [getInfo] when there is one. *)
Theorem NewHandler_configuration n vpcid region b :
  (vpcid ≠ "" → region ≠ "" →
   NewHandler n vpcid region b = (NewHandler_services n vpcid region, b))
  ∧ (vpcid = "" ∨ region = "" →
     let '(vpcid', region', err, b') := getInfo b in
     NewHandler n vpcid region b
     = match err with
       | Some er => (Returned None (Some er), b')
       | None => (NewHandler_services n vpcid' region', b')
       end).
Proof.
  unfold NewHandler. split.
  - intros Hv Hr.
    rewrite !bool_decide_eq_false_2; [done|..].
    + by destruct region.
    + by destruct vpcid.
  - intros Hempty.
    assert (bool_decide (String.length vpcid = 0%nat)
            || bool_decide (String.length region = 0%nat) = true) as ->.
    { apply orb_true_iff.
      destruct Hempty as [-> | ->]; [left|right]; by apply bool_decide_eq_true. }
    by destruct (getInfo b) as [[[v r] [er|]] b'].
Qed.

(** [NewHandler] hands back a handler exactly when it reports no error, and
    a handler it hands back has [channelSize] lanes, all empty. *)
Theorem NewHandler_result n vpcid region b handler err b' :
  NewHandler n vpcid region b = (Returned handler err, b') →
  (handler = None ↔ err ≠ None)
  ∧ ∀ built, handler = Some built →
             0 ≤ n
             ∧ init n = Some (built_handler built)
             ∧ ChannelSize (built_handler built) = n
             ∧ ∀ i, (i < Z.to_nat n)%nat →
                    ProcessChannel (built_handler built) !! i = Some []
                    ∧ EipStatusMap (built_handler built) !! i = Some ∅.
Proof.
  assert (∀ v r, NewHandler_services n v r = Returned handler err →
            (handler = None ↔ err ≠ None)
            ∧ ∀ built, handler = Some built →
                0 ≤ n
                ∧ init n = Some (built_handler built)
                ∧ ChannelSize (built_handler built) = n
                ∧ ∀ i, (i < Z.to_nat n)%nat →
                       ProcessChannel (built_handler built) !! i = Some []
                       ∧ EipStatusMap (built_handler built) !! i = Some ∅) as Hsvc.
  { intros v r. unfold NewHandler_services.
    destruct (NewEC2Service v r) as [ec2|er]; [|by intros [= <- <-]].
    destruct (NewShieldService v r) as [sh|er]; [|by intros [= <- <-]].
    unfold init. case_bool_decide as Hn; [done|].
    intros [= <- <-]. split; [done|].
    intros built [= <-]. simpl. split; [lia|]. split; [done|]. split; [done|].
    intros i Hi. split; by apply lookup_replicate_2. }
  unfold NewHandler.
  destruct (_ || _).
  - destruct (getInfo b) as [[[v r] [er|]] b1].
    + by intros [= <- <- <-].
    + intros [= Hs <-]. by eapply Hsvc.
  - intros [= Hs <-]. by eapply Hsvc.
Qed.

(** A negative [channelSize] never gives a handler: [NewHandler] reports the
    error of an earlier step, or panics in [init]. *)
Theorem NewHandler_negative_size n vpcid region b :
  n < 0 →
  (NewHandler n vpcid region b).1 = InitPanic
  ∨ ∃ er, (NewHandler n vpcid region b).1 = Returned None (Some er).
Proof.
  intros Hn.
  assert (∀ v r, NewHandler_services n v r = InitPanic
                 ∨ ∃ er, NewHandler_services n v r = Returned None (Some er)) as Hsvc.
  { intros v r. unfold NewHandler_services.
    destruct (NewEC2Service v r) as [ec2|er]; [|right; eauto].
    destruct (NewShieldService v r) as [sh|er]; [|right; eauto].
    left. unfold init. by rewrite bool_decide_eq_true_2. }
  unfold NewHandler. destruct (_ || _); [|apply Hsvc].
  destruct (getInfo b) as [[[v r] [er|]] b1]; simpl; [right; eauto|apply Hsvc].
Qed.

End StartupProperties.

(** ** The properties at sample inputs *)


Lemma insert2Queue_negative_hash_witness :
  insert2Queue (C := MoreSamples.ipv4) Samples.e100 (Samples.start MoreSamples.ipv4 tt)
  = Panic "index out of range" (Samples.start MoreSamples.ipv4 tt).
Proof.
  apply (insert2Queue_negative_hash (C := MoreSamples.ipv4) Samples.e100
           (Samples.start MoreSamples.ipv4 tt));
    by vm_compute.
Defined.

Lemma insert2Queue_without_lanes_witness :
  insert2Queue (C := Samples.succeeding) Samples.e100
    (MoreSamples.no_lanes Samples.succeeding tt)
  = Panic "integer divide by zero" (MoreSamples.no_lanes Samples.succeeding tt).
Proof.
  apply (insert2Queue_without_lanes (C := Samples.succeeding) Samples.e100
           (MoreSamples.no_lanes Samples.succeeding tt)).
  reflexivity.
Defined.

Lemma insert2Queue_full_lane_witness :
  insert2Queue (C := Samples.succeeding) Samples.e101
    (MoreSamples.full Samples.succeeding tt)
  = Block 2 Samples.e101 (MoreSamples.full Samples.succeeding tt).
Proof.
  apply (insert2Queue_full_lane (C := Samples.succeeding) Samples.e101
           (MoreSamples.full Samples.succeeding tt)
           (replicate channel_capacity Samples.e100));
    [done | by vm_compute | reflexivity | vm_compute; lia].
Defined.

Lemma insert2Queue_frame_witness :
  ∃ q, ProcessChannel Samples.three_lanes !! 2%nat = Some q
       ∧ ProcessChannel
           (hd (dispatched (C := Samples.succeeding) Samples.e100 []
                  (Samples.start Samples.succeeding tt))) !! 2%nat
         = Some (q ++ [Samples.e100])
       ∧ (∀ j, j ≠ 2%nat →
               ProcessChannel
                 (hd (dispatched (C := Samples.succeeding) Samples.e100 []
                        (Samples.start Samples.succeeding tt))) !! j
               = ProcessChannel Samples.three_lanes !! j)
       ∧ EipStatusMap
           (hd (dispatched (C := Samples.succeeding) Samples.e100 []
                  (Samples.start Samples.succeeding tt)))
         = EipStatusMap Samples.three_lanes
       ∧ ChannelSize
           (hd (dispatched (C := Samples.succeeding) Samples.e100 []
                  (Samples.start Samples.succeeding tt)))
         = 3
       ∧ world (dispatched (C := Samples.succeeding) Samples.e100 []
                  (Samples.start Samples.succeeding tt)) = tt
       ∧ calls (dispatched (C := Samples.succeeding) Samples.e100 []
                  (Samples.start Samples.succeeding tt)) = [].
Proof.
  apply (insert2Queue_frame (C := Samples.succeeding) Samples.e100
           (Samples.start Samples.succeeding tt)).
  vm_compute. reflexivity.
Defined.

Lemma insert2Queue_keeps_order_witness :
  ∃ s', (insert2Queue (C := Samples.succeeding) Samples.e100;;
         insert2Queue Samples.e101) (Samples.start Samples.succeeding tt) = Ok tt s'
        ∧ ProcessChannel (hd s') !! 2%nat = Some [Samples.e100; Samples.e101].
Proof.
  apply (insert2Queue_keeps_order (C := Samples.succeeding) Samples.e100 Samples.e101
           (Samples.start Samples.succeeding tt) []);
    [reflexivity | done | by vm_compute | reflexivity | vm_compute; lia].
Defined.

Lemma process_event_frame_witness :
  ∃ s' m', process_event (C := Samples.succeeding) 0 MoreSamples.other_event
             (Samples.seen Samples.succeeding tt) = Ok tt s'
           ∧ lane_state 0 s' = Some m'
           ∧ (∀ k, k ≠ "10.0.0.9" →
                   m' !! k = ({[ "10.0.0.5" := Samples.e100 ]} : gmap string event) !! k)
           ∧ (∀ j, j ≠ 0%nat →
                   lane_state j s' = lane_state j (Samples.seen Samples.succeeding tt))
           ∧ ProcessChannel (hd s') = [[]; []; []].
Proof.
  apply (process_event_frame (C := Samples.succeeding)
           (Samples.seen Samples.succeeding tt) 0%nat MoreSamples.other_event
           {[ "10.0.0.5" := Samples.e100 ]}).
  reflexivity.
Defined.

Lemma process_event_records_version_witness :
  ∃ s' m', process_event (C := Samples.failing) 0 Samples.e100
             (Samples.start Samples.failing tt) = Ok tt s'
           ∧ lane_state 0 s' = Some m'
           ∧ match m' !! "10.0.0.5" with
             | Some v => ResourceVersion v = "100"
             | None => (∅ : gmap string event) !! "10.0.0.5" = None
                       ∧ Some "AllocateAddress: RequestLimitExceeded" ≠ None
             end.
Proof.
  apply (process_event_records_version (C := Samples.failing)
           (Samples.start Samples.failing tt) 0%nat Samples.e100 ∅).
  reflexivity.
Defined.

Lemma process_drains_lane_witness :
  ∃ s', process (C := Samples.succeeding) 2 (MoreSamples.full Samples.succeeding tt)
        = Ok tt s'
        ∧ ProcessChannel (hd s') !! 2%nat = Some []
        ∧ (∀ j, j ≠ 2%nat →
                ProcessChannel (hd s') !! j
                = ProcessChannel (hd (MoreSamples.full Samples.succeeding tt)) !! j)
        ∧ (∀ j, j ≠ 2%nat →
                lane_state j s' = lane_state j (MoreSamples.full Samples.succeeding tt)).
Proof.
  apply (process_drains_lane (C := Samples.succeeding)
           (MoreSamples.full Samples.succeeding tt) 2%nat
           (replicate channel_capacity Samples.e100) ∅);
    reflexivity.
Defined.

Lemma process_calls_are_received_witness :
  ∃ s' cs, process (C := Samples.succeeding) 2 (MoreSamples.full Samples.succeeding tt)
           = Ok tt s'
           ∧ calls s' = [] ++ cs
           ∧ sublist (snd <$> cs) (replicate channel_capacity Samples.e100).
Proof.
  apply (process_calls_are_received (C := Samples.succeeding)
           (MoreSamples.full Samples.succeeding tt) 2%nat
           (replicate channel_capacity Samples.e100) ∅);
    reflexivity.
Defined.


Lemma process_stores_received_witness :
  ∃ s' m', process (C := Samples.succeeding) 2 (MoreSamples.full Samples.succeeding tt)
           = Ok tt s'
           ∧ lane_state 2 s' = Some m'
           ∧ (∀ k v, m' !! k = Some v →
                     (∅ : gmap string event) !! k = Some v
                     ∨ (v ∈ replicate channel_capacity Samples.e100 ∧ PodIP v = k))
           ∧ (keyed ∅ → keyed m').
Proof.
  apply (process_stores_received (C := Samples.succeeding)
           (MoreSamples.full Samples.succeeding tt) 2%nat
           (replicate channel_capacity Samples.e100) ∅);
    reflexivity.
Defined.

Lemma duplicate_suppression_interleaved_witness :
  ∃ s' cs, process_events (C := Samples.succeeding) 0
             (Samples.e100 :: [MoreSamples.other_event] ++ [Samples.e100])
             (Samples.start Samples.succeeding tt) = Ok tt s'
           ∧ calls s' = [] ++ ((∅ : gmap string event) !! "10.0.0.5", Samples.e100) :: cs
           ∧ sublist (snd <$> cs) [MoreSamples.other_event]
           ∧ ∃ m', lane_state 0 s' = Some m' ∧ m' !! "10.0.0.5" = Some Samples.e100.
Proof.
  apply (duplicate_suppression_interleaved (C := Samples.succeeding)
           (Samples.start Samples.succeeding tt) 0%nat Samples.e100
           [MoreSamples.other_event] ∅).
  - reflexivity.
  - reflexivity.
  - intros o Ho%list_elem_of_singleton. subst o. by vm_compute.
Defined.

Lemma enqueued_event_comes_from_snapshot_witness :
  ∃ e, hd (dispatched (C := Samples.succeeding) Samples.e100
             [notification_entry Samples.annotated_pod "update"]
             (Samples.start Samples.succeeding tt))
       = enqueue (Z.to_nat (lane_hash (C := Samples.succeeding) e Samples.three_lanes))
                 e Samples.three_lanes
       ∧ PodIP e = "10.0.0.5"
       ∧ ResourceVersion e = "100"
       ∧ (None : option error) = None
       ∧ passes_phase_filter Samples.annotated_pod = true
       ∧ passes_address_filter Samples.annotated_pod = true
       ∧ (PodIP e = "" →
          NestedString (Object Samples.annotated_pod) ["status"; "podIP"]
          = ("", false, None)).
Proof.
  apply (enqueued_event_comes_from_snapshot (C := Samples.succeeding)
           (Samples.start Samples.succeeding tt) Samples.annotated_pod
           (Some Samples.plain_pod) "update" None
           (dispatched Samples.e100 [notification_entry Samples.annotated_pod "update"]
                       (Samples.start Samples.succeeding tt))).
  - vm_compute. reflexivity.
  - vm_compute. congruence.
Defined.

Lemma other_action_inserts_candidate_witness :
  HandleEvent (C := Samples.succeeding) (Some Samples.shielded_pod) None "add"
    (Samples.start Samples.succeeding tt)
  = insert_and_return (mkEvent "10.0.0.5" "101" false false)
      (logged [notification_entry Samples.shielded_pod "add"]
              (Samples.start Samples.succeeding tt)).
Proof.
  apply (other_action_inserts_candidate (C := Samples.succeeding)
           (Samples.start Samples.succeeding tt) Samples.shielded_pod None "add");
    [vm_compute; congruence | vm_compute; congruence | reflexivity | reflexivity].
Defined.

Lemma nil_snapshot_panics_witness :
  HandleEvent (C := Samples.succeeding) (Some Samples.annotated_pod) None "update"
    (Samples.start Samples.succeeding tt)
  = Panic "invalid memory address or nil pointer dereference"
          (logged [notification_entry Samples.annotated_pod "update"]
                  (Samples.start Samples.succeeding tt)).
Proof.
  apply (proj2 (nil_snapshot_panics (C := Samples.succeeding)
                  (Samples.start Samples.succeeding tt) Samples.annotated_pod
                  None "update"));
    reflexivity.
Defined.

Lemma malformed_status_is_returned_witness :
  ∃ er, HandleEvent (C := Samples.succeeding) (Some MoreSamples.broken_pod) None "update"
          (Samples.start Samples.succeeding tt)
        = Ok (Some er) (Samples.start Samples.succeeding tt).
Proof.
  apply (proj1 (malformed_status_is_returned (C := Samples.succeeding)
                  (Samples.start Samples.succeeding tt) MoreSamples.broken_pod
                  None "update") (VString "Running"));
    [reflexivity | exact I].
Defined.

Lemma delete_of_known_identity_is_a_transition_witness :
  ∃ s', (HandleEvent (C := Samples.succeeding) (Some Samples.shielded_pod) None "delete";;
         process 2) (MoreSamples.known Samples.succeeding tt) = Ok tt s'
        ∧ calls s' = [] ++ [(Some Samples.e100, mkEvent "10.0.0.5" "101" false false)]
        ∧ lane_state 2 s'
          = Some (<["10.0.0.5" := mkEvent "10.0.0.5" "101" false false]>
                    {[ "10.0.0.5" := Samples.e100 ]})
        ∧ ProcessChannel (hd s') !! 2%nat = Some [].
Proof.
  apply (delete_of_known_identity_is_a_transition (C := Samples.succeeding)
           (MoreSamples.known Samples.succeeding tt) Samples.shielded_pod None
           {[ "10.0.0.5" := Samples.e100 ]} Samples.e100);
    [reflexivity | reflexivity | done | by vm_compute | reflexivity | reflexivity
    | reflexivity | vm_compute; congruence].
Defined.

Lemma delete_at_known_version_is_dropped_witness :
  ∃ s', (HandleEvent (C := Samples.succeeding) (Some Samples.annotated_pod) None "delete";;
         process 2) (MoreSamples.known Samples.succeeding tt) = Ok tt s'
        ∧ calls s' = []
        ∧ world s' = tt
        ∧ lane_state 2 s' = Some {[ "10.0.0.5" := Samples.e100 ]}.
Proof.
  apply (delete_at_known_version_is_dropped (C := Samples.succeeding)
           (MoreSamples.known Samples.succeeding tt) Samples.annotated_pod None
           {[ "10.0.0.5" := Samples.e100 ]} Samples.e100);
    [reflexivity | reflexivity | done | by vm_compute | reflexivity | reflexivity
    | reflexivity | reflexivity].
Defined.

Lemma getInfo_success_witness :
  getInfo (B := MoreSamples.imds) MoreSamples.boot
  = ("vpc-0a1b2c3d", "eu-west-1", None,
     mkBootState
       ([] ++ [macs_url; vpc_id_url MoreSamples.listing;
               vpc_id_url MoreSamples.listing; document_url])
       ([] ++ [mkEntry InfoLevel "get info from imds"
                 [("vpcid", FString "vpc-0a1b2c3d"); ("region", FString "eu-west-1")]])).
Proof.
  apply (getInfo_success (B := MoreSamples.imds) MoreSamples.boot
           MoreSamples.listing "vpc-0a1b2c3d" "{region: eu-west-1}");
    reflexivity.
Defined.

Lemma NewHandler_configuration_witness :
  NewHandler (B := MoreSamples.unreachable) 3 "vpc-0a1b2c3d" "eu-west-1" MoreSamples.boot
  = (NewHandler_services (B := MoreSamples.unreachable) 3 "vpc-0a1b2c3d" "eu-west-1",
     MoreSamples.boot)
  ∧ NewHandler (B := MoreSamples.imds) 3 "vpc-ffffffff" "" MoreSamples.boot
    = (NewHandler_services (B := MoreSamples.imds) 3 "vpc-0a1b2c3d" "eu-west-1",
       (getInfo (B := MoreSamples.imds) MoreSamples.boot).2).
Proof.
  split.
  - apply (proj1 (NewHandler_configuration (B := MoreSamples.unreachable) 3
                    "vpc-0a1b2c3d" "eu-west-1" MoreSamples.boot)); by vm_compute.
  - apply (proj2 (NewHandler_configuration (B := MoreSamples.imds) 3
                    "vpc-ffffffff" "" MoreSamples.boot)). by right.
Defined.

Lemma NewHandler_result_witness :
  ((Some (mkBuilt (B := MoreSamples.imds) Samples.three_lanes tt tt) = None
    ↔ (None : option error) ≠ None)
   ∧ ∀ built, Some (mkBuilt (B := MoreSamples.imds) Samples.three_lanes tt tt) = Some built →
              0 ≤ 3
              ∧ init 3 = Some (built_handler built)
              ∧ ChannelSize (built_handler built) = 3
              ∧ ∀ i, (i < Z.to_nat 3)%nat →
                     ProcessChannel (built_handler built) !! i = Some []
                     ∧ EipStatusMap (built_handler built) !! i = Some ∅).
Proof.
  apply (NewHandler_result (B := MoreSamples.imds) 3 "" "" MoreSamples.boot
           (Some (mkBuilt (B := MoreSamples.imds) Samples.three_lanes tt tt)) None
           (getInfo (B := MoreSamples.imds) MoreSamples.boot).2).
  reflexivity.
Defined.

Lemma NewHandler_negative_size_witness :
  (NewHandler (B := MoreSamples.imds) (-1) "vpc-0a1b2c3d" "eu-west-1" MoreSamples.boot).1
  = InitPanic
  ∨ ∃ er, (NewHandler (B := MoreSamples.imds) (-1) "vpc-0a1b2c3d" "eu-west-1"
             MoreSamples.boot).1
          = Returned None (Some er).
Proof.
  apply (NewHandler_negative_size (B := MoreSamples.imds) (-1)
           "vpc-0a1b2c3d" "eu-west-1" MoreSamples.boot).
  lia.
Defined.
